(** * SerialPortPoolService: the dummy UUT simulators

    A shallow embedding of [tests/DummyUUT/dummy_uut.py] (the generic
    single-port simulator) and of
    [SerialPortPoolService/multi_port_dummy_uut.py] (one main device and
    three secondary ports), with the properties of the command tables, of
    the processing loops and of the start/stop lifecycle.

    Python values are modelled as follows.
    - [str] is a list of Unicode code points ([N]);
    - [bytes] is a list of [Byte.byte];
    - a [dict] keyed by strings is a [gmap pystr _];
    - an exception is a constructor of [exn], a call that may raise
      returns a [result];
    - a [serial.Serial] object is the record [Serial]: the open flag and
      the two queues of the link. *)

From Stdlib Require Import NArith ZArith Lia Ascii String List Bool.
From Stdlib Require Import Strings.Byte DecimalString DecimalN.
From stdpp Require Import base option list gmap fin_maps.

Local Open Scope N_scope.

(** ** Python strings and bytes *)

Abbreviation pystr := (list N).
Abbreviation pybytes := (list byte).

(** An ASCII literal of the source as a Python [str]. *)
Definition py (s : string) : pystr :=
  map N_of_ascii (list_ascii_of_string s).

Definition CR : N := 13.
Definition LF : N := 10.
Definition CRLF : pystr := [CR; LF].

(** [str.startswith]. *)
Fixpoint startswith (s prefix : pystr) {struct prefix} : bool :=
  match prefix, s with
  | [], _ => true
  | p :: prefix', c :: s' => (c =? p) && startswith s' prefix'
  | _ :: _, [] => false
  end.

(** [str.replace(old, "")] for a one-character [old]. *)
Definition remove_char (old : N) (s : pystr) : pystr :=
  filter (λ c, c ≠ old) s.

(** [str.isspace] on one code point: the code points CPython's
    [_PyUnicode_IsWhitespace] accepts. *)
Definition isspace (c : N) : bool :=
  ((0x09 <=? c) && (c <=? 0x0D)) || ((0x1C <=? c) && (c <=? 0x20))
  || (c =? 0x85) || (c =? 0xA0) || (c =? 0x1680)
  || ((0x2000 <=? c) && (c <=? 0x200A))
  || (c =? 0x2028) || (c =? 0x2029) || (c =? 0x202F) || (c =? 0x205F)
  || (c =? 0x3000).

(** [str.lstrip()], [str.rstrip()] and [str.strip()] without argument. *)
Fixpoint lstrip (s : pystr) : pystr :=
  match s with
  | c :: s' => if isspace c then lstrip s' else s
  | [] => []
  end.

Definition rstrip (s : pystr) : pystr := rev (lstrip (rev s)).

Definition strip (s : pystr) : pystr := rstrip (lstrip s).

(** [str.split(sep)] for a one-character separator: never empty, one more
    field than there are separators. *)
Fixpoint split (sep : N) (s : pystr) : list pystr :=
  match s with
  | [] => [[]]
  | c :: s' =>
      if c =? sep then [] :: split sep s'
      else match split sep s' with
           | f :: fs => (c :: f) :: fs
           | [] => [[c]]
           end
  end.

(** [str(n)] / [f"{n}"] for a non-negative [int]. *)
Definition str_of_int (n : N) : pystr :=
  py (NilEmpty.string_of_uint (N.to_uint n)).

(** Truthiness of a [str]. *)
Definition nonempty (s : pystr) : bool :=
  match s with [] => false | _ :: _ => true end.

(** ** UTF-8 *)

Definition byte_val (b : byte) : N := Byte.to_N b.

Definition mk_byte (n : N) : byte :=
  match Byte.of_N n with Some b => b | None => x00 end.

(** A code point that UTF-8 can carry: below 0x110000 and no surrogate. *)
Definition scalar (c : N) : bool :=
  (c <? 0xD800) || ((0xDFFF <? c) && (c <? 0x110000)).

Definition encode_char (c : N) : option pybytes :=
  if c <? 0x80 then Some [mk_byte c]
  else if c <? 0x800 then
    Some [mk_byte (0xC0 + c / 64); mk_byte (0x80 + c mod 64)]
  else if c <? 0x10000 then
    if scalar c then
      Some [mk_byte (0xE0 + c / 4096); mk_byte (0x80 + (c / 64) mod 64);
            mk_byte (0x80 + c mod 64)]
    else None
  else if c <? 0x110000 then
    Some [mk_byte (0xF0 + c / 262144); mk_byte (0x80 + (c / 4096) mod 64);
          mk_byte (0x80 + (c / 64) mod 64); mk_byte (0x80 + c mod 64)]
  else None.

(** [str.encode('utf-8')]: [None] stands for [UnicodeEncodeError]. *)
Fixpoint encode (s : pystr) : option pybytes :=
  match s with
  | [] => Some []
  | c :: s' =>
      match encode_char c, encode s' with
      | Some b, Some bs => Some (b ++ bs)
      | _, _ => None
      end
  end.

Definition in_range (lo hi b : N) : bool := (lo <=? b) && (b <=? hi).
Definition cont (b : N) : bool := in_range 0x80 0xBF b.

(** [bytes.decode('utf-8')] in strict mode: [None] stands for
    [UnicodeDecodeError].  Well-formed sequences are those of the Unicode
    standard (no overlong form, no surrogate, nothing above 0x10FFFF). *)
Fixpoint decode (bs : pybytes) : option pystr :=
  match bs with
  | [] => Some []
  | b0 :: r0 =>
      let v0 := byte_val b0 in
      if v0 <? 0x80 then cons v0 <$> decode r0
      else match r0 with
      | [] => None
      | b1 :: r1 =>
          let v1 := byte_val b1 in
          if in_range 0xC2 0xDF v0 then
            if cont v1
            then cons ((v0 - 0xC0) * 64 + (v1 - 0x80)) <$> decode r1
            else None
          else match r1 with
          | [] => None
          | b2 :: r2 =>
              let v2 := byte_val b2 in
              if in_range 0xE0 0xEF v0 then
                if in_range (if v0 =? 0xE0 then 0xA0 else 0x80)
                            (if v0 =? 0xED then 0x9F else 0xBF) v1
                   && cont v2
                then cons ((v0 - 0xE0) * 4096 + (v1 - 0x80) * 64 + (v2 - 0x80))
                       <$> decode r2
                else None
              else match r2 with
              | [] => None
              | b3 :: r3 =>
                  let v3 := byte_val b3 in
                  if in_range 0xF0 0xF4 v0 then
                    if in_range (if v0 =? 0xF0 then 0x90 else 0x80)
                                (if v0 =? 0xF4 then 0x8F else 0xBF) v1
                       && cont v2 && cont v3
                    then cons ((v0 - 0xF0) * 262144 + (v1 - 0x80) * 4096
                               + (v2 - 0x80) * 64 + (v3 - 0x80))
                           <$> decode r3
                    else None
                  else None
              end
          end
      end
  end.

(** An ASCII literal as [bytes]. *)
Definition pyb (s : string) : pybytes := list_byte_of_string s.

(** ** Exceptions and calls that may raise *)

Inductive exn : Type :=
  | SerialException          (* pyserial: port missing, busy or not open *)
  | SerialTimeoutException   (* pyserial: a timed wait elapsed *)
  | UnicodeDecodeError
  | UnicodeEncodeError
  | AttributeError           (* attribute access on [None] *)
  | ValueError               (* pyserial: a baud rate that is not valid *)
  | OverflowError.           (* [time.sleep]: a duration out of range *)

Inductive result (A : Type) : Type :=
  | Ok (a : A)
  | Raise (e : exn).
Arguments Ok {A} a.
Arguments Raise {A} e.

(** Code that mutates an object of type [S] and may raise: what was
    mutated before the exception stays mutated. *)
Definition M (S A : Type) : Type := S -> S * result A.

Definition ret {S A} (a : A) : M S A := fun s => (s, Ok a).

Definition raise {S A} (e : exn) : M S A := fun s => (s, Raise e).

Definition bind {S A B} (c : M S A) (k : A -> M S B) : M S B :=
  fun s => match c s with
           | (s', Ok a) => k a s'
           | (s', Raise e) => (s', Raise e)
           end.

Definition gets {S A} (f : S -> A) : M S A := fun s => (s, Ok (f s)).

Definition modify {S} (f : S -> S) : M S unit := fun s => (f s, Ok tt).

(** [try: c  except Exception as e: h e]. *)
Definition try_except {S A} (c : M S A) (h : exn -> M S A) : M S A :=
  fun s => match c s with
           | (s', Ok a) => (s', Ok a)
           | (s', Raise e) => h e s'
           end.

(** [bytes.decode] and [str.encode] as calls that may raise. *)
Definition decode_utf8 {S} (b : pybytes) : M S pystr :=
  match decode b with Some s => ret s | None => raise UnicodeDecodeError end.

Definition encode_utf8 {S} (s : pystr) : M S pybytes :=
  match encode s with Some b => ret b | None => raise UnicodeEncodeError end.

Declare Scope py_scope.
Delimit Scope py_scope with py_m.
Notation "x <- c ;; k" := (bind c (fun x => k))
  (at level 100, c at next level, right associativity) : py_scope.
Notation "c ;; k" := (bind c (fun _ => k))
  (at level 100, right associativity) : py_scope.
Open Scope py_scope.

(** ** The transport: a [serial.Serial] object

    The link is a pair of byte queues: [in_buf] holds what the peer has
    sent and the simulator has not read, [out_buf] what the simulator has
    written.  Every access to a port that is not open raises. *)

Record Serial : Type := mkSerial {
  is_open : bool;
  in_buf : pybytes;
  out_buf : pybytes
}.

#[global] Instance byte_eq_dec : EqDecision byte := Byte.byte_eq_dec.

#[global] Instance Serial_eq_dec : EqDecision Serial.
Proof. solve_decision. Defined.

(** [Serial.in_waiting]. *)
Definition in_waiting (s : Serial) : result N :=
  if is_open s then Ok (N.of_nat (length (in_buf s)))
  else Raise SerialException.

(** The bytes up to and including the first [terminator], and the rest. *)
Fixpoint take_line (terminator : byte) (buf : pybytes) : pybytes * pybytes :=
  match buf with
  | [] => ([], [])
  | b :: buf' =>
      if decide (b = terminator) then ([b], buf')
      else let (l, r) := take_line terminator buf' in (b :: l, r)
  end.

(** [Serial.read_until(b'\n')] and [Serial.readline()]: a whole line, or
    what has arrived when the read timeout elapses. *)
Definition next_line (s : Serial) : pybytes := (take_line x0a (in_buf s)).1.

Definition after_read (s : Serial) : Serial :=
  mkSerial true (take_line x0a (in_buf s)).2 (out_buf s).

Definition read_until (s : Serial) : result (pybytes * Serial) :=
  if is_open s then Ok (next_line s, after_read s)
  else Raise SerialException.

Definition readline := read_until.

(** [Serial.write(data)]. *)
Definition write (data : pybytes) (s : Serial) : result (unit * Serial) :=
  if is_open s then Ok (tt, mkSerial true (in_buf s) (out_buf s ++ data))
  else Raise SerialException.

(** [Serial.close()]: closing a closed port does nothing. *)
Definition close (s : Serial) : Serial :=
  if is_open s then mkSerial false (in_buf s) (out_buf s) else s.

(** [serial.Serial(port, baudrate, ...)]: the constructor first checks
    the baud rate, which must not be negative, then opens the port; the
    platform decides which ports can be opened. *)
Definition serial_Serial (available : pystr -> bool)
    (port : pystr) (baudrate : Z) : result Serial :=
  if (baudrate <? 0)%Z then Raise ValueError
  else if available port then Ok (mkSerial true [] [])
  else Raise SerialException.

Inductive level : Type := INFO | WARNING | ERROR.

(** How one pass of a processing loop ends. *)
Inductive outcome : Type :=
  | Continue   (* back to the [while] test *)
  | Break.     (* out of the loop *)

(** * The generic simulator: [tests/DummyUUT/dummy_uut.py] *)

Module DummyUUT.

Inductive DeviceState : Type := OFFLINE | ONLINE.

(** The records handed to [self.logger], by their template. *)
Inductive message : Type :=
  | MsgStarted (port : pystr) (baud : Z)
  | MsgDeviceState (st : DeviceState)
  | MsgSupported (commands : nat)
  | MsgOpenFailed (port : pystr) (e : exn)
  | MsgStopped (port : pystr)
  | MsgRX (command : pystr)
  | MsgTX (text : pystr)
  | MsgProcessingError (e : exn)
  | MsgAdded (command response : pystr).

(** What the object does besides changing its fields: records logged and
    calls of [time.sleep] (in milliseconds). *)
Inductive event : Type :=
  | Log (lv : level) (m : message)
  | Sleep (ms : N).

(** The fields of a [DummyUUT]; [command_threads] counts the threads
    [start] has launched and [trace] lists the events so far. *)
Record t : Type := mk {
  port_name : pystr;
  baud_rate : Z;
  serial_port : option Serial;
  running : bool;
  device_state : DeviceState;
  command_responses : gmap pystr pystr;
  command_threads : nat;
  trace : list event
}.

Definition set_serial_port (p : option Serial) (d : t) : t :=
  mk (port_name d) (baud_rate d) p (running d) (device_state d)
     (command_responses d) (command_threads d) (trace d).

Definition set_running (r : bool) (d : t) : t :=
  mk (port_name d) (baud_rate d) (serial_port d) r (device_state d)
     (command_responses d) (command_threads d) (trace d).

Definition set_device_state (st : DeviceState) (d : t) : t :=
  mk (port_name d) (baud_rate d) (serial_port d) (running d) st
     (command_responses d) (command_threads d) (trace d).

Definition set_command_responses (m : gmap pystr pystr) (d : t) : t :=
  mk (port_name d) (baud_rate d) (serial_port d) (running d) (device_state d)
     m (command_threads d) (trace d).

Definition launch_thread (d : t) : t :=
  mk (port_name d) (baud_rate d) (serial_port d) (running d) (device_state d)
     (command_responses d) (S (command_threads d)) (trace d).

Definition emit (e : event) (d : t) : t :=
  mk (port_name d) (baud_rate d) (serial_port d) (running d) (device_state d)
     (command_responses d) (command_threads d) (trace d ++ [e]).

Definition log (lv : level) (m : message) : M t unit := modify (emit (Log lv m)).
Definition sleep (ms : N) : M t unit := modify (emit (Sleep ms)).

(** The command table [__init__] installs. *)
Definition default_commands : list (pystr * pystr) :=
  [ (py "ATZ" ++ CRLF, py "OK" ++ CRLF);
    (py "ATZ", py "OK" ++ CRLF);
    (py "INIT_RS232" ++ CRLF, py "READY" ++ CRLF);
    (py "INIT_RS232", py "READY" ++ CRLF);
    (py "AT+STATUS" ++ CRLF, py "STATUS_OK" ++ CRLF);
    (py "AT+STATUS", py "STATUS_OK" ++ CRLF);
    (py "RUN_TEST_1" ++ CRLF, py "PASS" ++ CRLF);
    (py "RUN_TEST_1", py "PASS" ++ CRLF);
    (py "TEST" ++ CRLF, py "PASS" ++ CRLF);
    (py "TEST", py "PASS" ++ CRLF);
    (py "AT+QUIT" ++ CRLF, py "GOODBYE" ++ CRLF);
    (py "AT+QUIT", py "GOODBYE" ++ CRLF);
    (py "STOP_RS232" ++ CRLF, py "BYE" ++ CRLF);
    (py "STOP_RS232", py "BYE" ++ CRLF);
    (py "EXIT" ++ CRLF, py "BYE" ++ CRLF);
    (py "EXIT", py "BYE" ++ CRLF);
    (py "AT+SHUTDOWN" ++ CRLF, py "SHUTDOWN_OK" ++ CRLF);
    (py "AT+SHUTDOWN", py "SHUTDOWN_OK" ++ CRLF) ].

(** [DummyUUT.__init__]. *)
Definition init (port_name : pystr) (baud_rate : Z) : t :=
  mk port_name baud_rate None false OFFLINE
     (list_to_map default_commands) 0 [].

(** [DummyUUT.start]: the value returned, or the exception that is not a
    [SerialException] and so leaves the method. *)
Definition start (available : pystr -> bool) (d : t) : t * result bool :=
  match serial_Serial available (port_name d) (baud_rate d) with
  | Ok s =>
      let d := set_serial_port (Some s) d in
      let d := set_running true d in
      let d := set_device_state ONLINE d in
      let d := emit (Log INFO (MsgStarted (port_name d) (baud_rate d))) d in
      let d := emit (Log INFO (MsgDeviceState (device_state d))) d in
      let d := emit (Log INFO (MsgSupported (size (command_responses d)))) d in
      (launch_thread d, Ok true)
  | Raise SerialException =>
      (emit (Log ERROR (MsgOpenFailed (port_name d) SerialException)) d,
       Ok false)
  | Raise e => (d, Raise e)
  end.

(** [DummyUUT.stop]. *)
Definition stop (d : t) : t :=
  let d := set_running false d in
  let d := set_device_state OFFLINE d in
  match serial_port d with
  | Some s =>
      if is_open s then
        emit (Log INFO (MsgStopped (port_name d)))
             (set_serial_port (Some (close s)) d)
      else d
  | None => d
  end.

(** [DummyUUT._get_response]: [None] is Python's [None]. *)
Definition _get_response (d : t) (command : pystr) : option pystr :=
  match command_responses d !! command with
  | Some r => Some r
  | None =>
      let command_with_crlf := command ++ CRLF in
      match command_responses d !! command_with_crlf with
      | Some r => Some r
      | None =>
          let command_clean := remove_char LF (remove_char CR command) in
          match command_responses d !! command_clean with
          | Some r => Some r
          | None => None
          end
      end
  end.

(** [DummyUUT.add_command]. *)
Definition add_command (command response : pystr) (d : t) : t :=
  let d := set_command_responses (<[command := response]> (command_responses d)) d in
  emit (Log INFO (MsgAdded command (strip response))) d.

(** [DummyUUT.get_status]. *)
Record status : Type := mk_status {
  st_port : pystr;
  st_baud_rate : Z;
  st_state : DeviceState;
  st_running : bool;
  st_commands_supported : nat
}.

Definition get_status (d : t) : status :=
  mk_status (port_name d) (baud_rate d) (device_state d) (running d)
            (size (command_responses d)).

(** A call on [self.serial_port]. *)
Definition on_port {A} (f : Serial -> result (A * Serial)) : M t A :=
  fun d => match serial_port d with
           | None => (d, Raise AttributeError)
           | Some s =>
               match f s with
               | Ok (a, s') => (set_serial_port (Some s') d, Ok a)
               | Raise e => (d, Raise e)
               end
           end.

(** [self.serial_port.in_waiting]. *)
Definition port_in_waiting : M t N :=
  fun d => match serial_port d with
           | None => (d, Raise AttributeError)
           | Some s => (d, in_waiting s)
           end.

(** [self.serial_port.read_until(b'\n').decode('utf-8')] and
    [command.strip()]: the command of the pass. *)
Definition read_command : M t pystr :=
  raw <- on_port read_until ;;
  text <- decode_utf8 raw ;;
  ret (strip text).

Definition error_response : pystr := py "ERROR: Unknown command" ++ CRLF.

(** The [try] block of one pass of [_process_commands]. *)
Definition process_try : M t unit :=
  n <- port_in_waiting ;;
  (if 0 <? n then
     command <- read_command ;;
     if nonempty command then
       log INFO (MsgRX command) ;;
       response <- gets (fun d => _get_response d command) ;;
       sleep 100 ;;
       match response with
       | Some (c :: r) =>
           data <- encode_utf8 (c :: r) ;;
           on_port (write data) ;;
           log INFO (MsgTX (strip (c :: r)))
       | _ =>
           data <- encode_utf8 error_response ;;
           on_port (write data) ;;
           log WARNING (MsgTX (strip error_response))
       end
     else ret tt
   else ret tt) ;;
  sleep 10.

(** The [except Exception] clause of [_process_commands]. *)
Definition process_except (e : exn) : M t unit :=
  log ERROR (MsgProcessingError e) ;;
  sleep 100.

(** One pass of the [while self.running] loop of [_process_commands]:
    every exception is caught inside the loop, which goes on. *)
Definition iteration (d : t) : t * outcome :=
  (fst (try_except process_try process_except d), Continue).

(** The loop of [_process_commands] run alone, for at most [fuel]
    passes. *)
Fixpoint _process_commands (fuel : nat) (d : t) : t :=
  match fuel with
  | O => d
  | S fuel' =>
      if running d then _process_commands fuel' (fst (iteration d)) else d
  end.

(** The peer of the link: what it sends is appended to the input queue
    of the port. *)
Definition feed (data : pybytes) (d : t) : t :=
  match serial_port d with
  | Some s => set_serial_port (Some (mkSerial (is_open s) (in_buf s ++ data) (out_buf s))) d
  | None => d
  end.

(** What the simulator has written to its port. *)
Definition written (d : t) : pybytes :=
  match serial_port d with
  | Some s => out_buf s
  | None => []
  end.

(** What [main] prints, by template, and its call of [time.sleep]. *)
Inductive main_event : Type :=
  | PrTitle
  | PrRule
  | PrPort (port : pystr)
  | PrBaud (baud : Z)
  | PrDuration (duration : Z)
  | PrBlank
  | PrStarted
  | PrReady
  | PrSupported
  | PrCommand (command response : pystr)
  | PrPressCtrlC
  | PrStopping
  | PrStopped
  | PrFailed
  | Slept (seconds : Z).

(** How [main] ends: it returns a status, waits for ever in
    [while True], or lets an exception through. *)
Inductive ending : Type :=
  | Returned (code : Z)
  | Forever
  | Propagated (e : exn).

Record run : Type := mk_run {
  run_events : list main_event;
  run_dummy : t;
  run_ending : ending
}.

(** [main], with the parsed arguments [args.port], [args.baud] and
    [args.duration].  [sleep_limit] is the longest duration, in seconds,
    that [time.sleep] accepts on the platform: beyond it the call raises
    [OverflowError] at once.  [interrupted] tells whether [Ctrl+C]
    arrives during the wait.  [main] catches [KeyboardInterrupt] only,
    and [start] [SerialException] only: any other exception leaves
    [main].  The table printed is the one [__init__] has just installed,
    in the order of its insertion. *)
Definition main (available : pystr -> bool) (sleep_limit : Z) (arg_port : pystr)
    (arg_baud arg_duration : Z) (interrupted : bool) : run :=
  let dummy := init arg_port arg_baud in
  let out := [PrTitle; PrRule; PrPort arg_port; PrBaud arg_baud;
              PrDuration arg_duration; PrBlank] in
  match start available dummy with
  | (dummy, Ok true) =>
      let out :=
        out ++ [PrStarted; PrReady; PrBlank; PrSupported]
            ++ map (fun e => PrCommand (strip e.1) (strip e.2)) default_commands
            ++ [PrBlank; PrPressCtrlC] in
      if (0 <? arg_duration)%Z then
        if (sleep_limit <? arg_duration)%Z then
          mk_run out dummy (Propagated OverflowError)
        else if interrupted then
          mk_run (out ++ [PrStopping; PrStopped]) (stop dummy) (Returned 0)
        else mk_run (out ++ [Slept arg_duration]) dummy (Returned 0)
      else if interrupted then
        mk_run (out ++ [PrStopping; PrStopped]) (stop dummy) (Returned 0)
      else mk_run out dummy Forever
  | (dummy, Ok false) => mk_run (out ++ [PrFailed]) dummy (Returned 1)
  | (dummy, Raise e) => mk_run out dummy (Propagated e)
  end.

(** [n] passes of the loop in a row. *)
Fixpoint passes (n : nat) (d : t) : t :=
  match n with
  | O => d
  | S n' => passes n' (iteration d).1
  end.

End DummyUUT.

(** * The simulator group: [SerialPortPoolService/multi_port_dummy_uut.py] *)

Module MultiPort.

(** The two kinds of handler: [create_main_uut_handler] and
    [create_port_handler] with its [port_num]. *)
Inductive role : Type :=
  | Main
  | Port (port_num : N).

(** A [threading.Thread] of the group, by its target. *)
Record thread : Type := mk_thread { th_role : role; th_port : pystr }.

(** Lines printed, by their template. *)
Inductive message : Type :=
  | MsgOpening (r : role) (port : pystr) (baud : Z)
  | MsgReady (r : role)
  | MsgRX (command : pystr)
  | MsgTX (text : pystr)
  | MsgError (r : role) (e : exn)
  | MsgOpenFailed (r : role) (e : exn)
  | MsgClosed (r : role)
  | MsgBanner
  | MsgRule
  | MsgMainUUT (port : pystr)
  | MsgSecondary (ports : list pystr)
  | MsgBaudrate (baud : Z)
  | MsgBlank
  | MsgAllStarted (n : nat)
  | MsgReadyForCommands
  | MsgPressCtrlC
  | MsgShutdownSignal
  | MsgStopping
  | MsgClosedPort (port : pystr)
  | MsgAllStopped
  | MsgPortCountError
  | MsgPortCountExample.

Inductive event : Type :=
  | Print (m : message)                    (* [print] *)
  | LogLine (port : pystr) (m : message)   (* [self.log] *)
  | Sleep (ms : N)                         (* [time.sleep] *)
  | ThreadStart (th : thread)              (* [Thread.start] *)
  | ThreadJoin (th : thread) (timeout_ms : N).

(** The fields of a [MultiPortDummyUUT], and around them the [Serial]
    objects that exist ([objects], a reference is an index into it) and
    the events so far ([trace]).  A handler reaches its port through its
    local [ser] and [stop] through [serial_connections]: both are
    references to the same object. *)
Record t : Type := mk {
  main_port : pystr;
  secondary_ports : list pystr;
  baudrate : Z;
  running : bool;
  threads : list thread;
  serial_connections : gmap pystr nat;
  objects : list Serial;
  trace : list event
}.

Definition set_running (r : bool) (w : t) : t :=
  mk (main_port w) (secondary_ports w) (baudrate w) r (threads w)
     (serial_connections w) (objects w) (trace w).

Definition set_threads (ths : list thread) (w : t) : t :=
  mk (main_port w) (secondary_ports w) (baudrate w) (running w) ths
     (serial_connections w) (objects w) (trace w).

Definition set_serial_connections (m : gmap pystr nat) (w : t) : t :=
  mk (main_port w) (secondary_ports w) (baudrate w) (running w) (threads w)
     m (objects w) (trace w).

Definition set_objects (o : list Serial) (w : t) : t :=
  mk (main_port w) (secondary_ports w) (baudrate w) (running w) (threads w)
     (serial_connections w) o (trace w).

Definition emit (e : event) (w : t) : t :=
  mk (main_port w) (secondary_ports w) (baudrate w) (running w) (threads w)
     (serial_connections w) (objects w) (trace w ++ [e]).

Definition log (port : pystr) (m : message) : M t unit :=
  modify (emit (LogLine port m)).
Definition sleep (ms : N) : M t unit := modify (emit (Sleep ms)).

(** [MultiPortDummyUUT.__init__]. *)
Definition init (main_port : pystr) (secondary_ports : list pystr)
    (baudrate : Z) : t :=
  mk main_port secondary_ports baudrate false [] ∅ [] [].

(** A call on the object the reference [ser] points to. *)
Definition on_ser {A} (ser : nat) (f : Serial -> result (A * Serial)) : M t A :=
  fun w => match objects w !! ser with
           | None => (w, Raise AttributeError)
           | Some s =>
               match f s with
               | Ok (a, s') => (set_objects (<[ser := s']> (objects w)) w, Ok a)
               | Raise e => (w, Raise e)
               end
           end.

(** [ser.in_waiting]. *)
Definition ser_in_waiting (ser : nat) : M t N :=
  fun w => match objects w !! ser with
           | None => (w, Raise AttributeError)
           | Some s => (w, in_waiting s)
           end.

(** [ser.readline().decode('utf-8').strip()]: the command of the pass. *)
Definition read_command (ser : nat) : M t pystr :=
  raw <- on_ser ser readline ;;
  text <- decode_utf8 raw ;;
  ret (strip text).

(** [serial.Serial(port, self.baudrate, timeout=1)]: a new object. *)
Definition new_serial (available : pystr -> bool) (port : pystr) : M t nat :=
  fun w => match serial_Serial available port (baudrate w) with
           | Ok s => (set_objects (objects w ++ [s]) w, Ok (length (objects w)))
           | Raise e => (w, Raise e)
           end.

(** The statements of a handler before its loop. *)
Definition handler_open (available : pystr -> bool) (r : role)
    (port : pystr) : M t nat :=
  baud <- gets baudrate ;;
  log port (MsgOpening r port baud) ;;
  ser <- new_serial available port ;;
  modify (fun w => set_serial_connections (<[port := ser]> (serial_connections w)) w) ;;
  log port (MsgReady r) ;;
  ret ser.

(** The [if]/[elif] chain of [create_main_uut_handler]. *)
Definition main_response (command : pystr) : M t pystr :=
  if decide (command = py "MAIN_POWER_ON") then
    ret (py "MAIN_POWER:ON" ++ CRLF)
  else if decide (command = py "MAIN_INIT") then
    ret (py "MAIN_INIT:OK" ++ CRLF)
  else if decide (command = py "MAIN_TEST_STATUS") then
    ret (py "MAIN_STATUS:READY" ++ CRLF)
  else if decide (command = py "MAIN_SELF_TEST") then
    sleep 500 ;;
    ret (py "MAIN_SELF_TEST:PASS" ++ CRLF)
  else if decide (command = py "MAIN_SHUTDOWN") then
    ret (py "MAIN_SHUTDOWN:OK" ++ CRLF)
  else if startswith command (py "MAIN_") then
    ret (py "MAIN_UNKNOWN_CMD:" ++ command ++ CRLF)
  else
    ret (py "MAIN_ERROR:INVALID_COMMAND" ++ CRLF).

(** [f"PORT{port_num}"]. *)
Definition PORT (port_num : N) : pystr := py "PORT" ++ str_of_int port_num.

(** The [if]/[elif] chain of [create_port_handler]. *)
Definition port_response (port_num : N) (command : pystr) : M t pystr :=
  if decide (command = PORT port_num ++ py "_ENABLE") then
    ret (PORT port_num ++ py ":ENABLED" ++ CRLF)
  else if decide (command = PORT port_num ++ py "_TEST") then
    sleep 300 ;;
    ret (PORT port_num ++ py ":TEST_OK" ++ CRLF)
  else if decide (command = PORT port_num ++ py "_DATA_CHECK") then
    ret (PORT port_num ++ py ":DATA_VALID" ++ CRLF)
  else if decide (command = PORT port_num ++ py "_DISABLE") then
    ret (PORT port_num ++ py ":DISABLED" ++ CRLF)
  else if startswith command (PORT port_num ++ py "_") then
    ret (PORT port_num ++ py "_UNKNOWN_CMD:" ++ command ++ CRLF)
  else
    ret (PORT port_num ++ py "_ERROR:INVALID_COMMAND" ++ CRLF).

Definition respond (r : role) (command : pystr) : M t pystr :=
  match r with
  | Main => main_response command
  | Port port_num => port_response port_num command
  end.

(** The inner [try] block of a handler: one pass of its loop. *)
Definition handler_try (r : role) (port : pystr) (ser : nat) : M t unit :=
  n <- ser_in_waiting ser ;;
  (if 0 <? n then
     command <- read_command ser ;;
     log port (MsgRX command) ;;
     response <- respond r command ;;
     data <- encode_utf8 response ;;
     on_ser ser (write data) ;;
     log port (MsgTX (strip response))
   else ret tt) ;;
  sleep 10.

(** One pass of the [while self.running] loop of a handler, with the two
    [except] clauses of the inner [try]: a timeout goes back to the test
    of the loop, any other exception is printed and leaves the loop. *)
Definition iteration (r : role) (port : pystr) (ser : nat) (w : t) : t * outcome :=
  match handler_try r port ser w with
  | (w', Ok _) => (w', Continue)
  | (w', Raise SerialTimeoutException) => (w', Continue)
  | (w', Raise e) => (emit (LogLine port (MsgError r e)) w', Break)
  end.

(** The [finally] clause of a handler. *)
Definition handler_finally (r : role) (port : pystr) (w : t) : t :=
  let w :=
    match serial_connections w !! port with
    | Some c =>
        match objects w !! c with
        | Some s => set_objects (<[c := close s]> (objects w)) w
        | None => w
        end
    | None => w
    end in
  emit (LogLine port (MsgClosed r)) w.

(** The loop of a handler run alone; [None] when it has not left the loop
    after [fuel] passes. *)
Fixpoint handler_loop (fuel : nat) (r : role) (port : pystr) (ser : nat)
    (w : t) : option t :=
  match fuel with
  | O => None
  | S fuel' =>
      if running w then
        match iteration r port ser w with
        | (w', Continue) => handler_loop fuel' r port ser w'
        | (w', Break) => Some w'
        end
      else Some w
  end.

(** A whole handler run alone. *)
Definition handler (available : pystr -> bool) (fuel : nat) (r : role)
    (port : pystr) (w : t) : option t :=
  match handler_open available r port w with
  | (w', Ok ser) => handler_finally r port <$> handler_loop fuel r port ser w'
  | (w', Raise e) =>
      Some (handler_finally r port (emit (LogLine port (MsgOpenFailed r e)) w'))
  end.

(** [Thread(target=...)], [thread.start()] and [self.threads.append]. *)
Definition launch (th : thread) (w : t) : t :=
  set_threads (threads w ++ [th]) (emit (ThreadStart th) w).

(** [enumerate(ports, start)]. *)
Fixpoint enumerate (start : N) (ports : list pystr) : list (N * pystr) :=
  match ports with
  | [] => []
  | p :: ports' => (start, p) :: enumerate (N.succ start) ports'
  end.

(** [MultiPortDummyUUT.start] up to the wait for [Ctrl+C]. *)
Definition start (w : t) : t :=
  let w := emit (Print MsgBanner) w in
  let w := emit (Print MsgRule) w in
  let w := emit (Print (MsgMainUUT (main_port w))) w in
  let w := emit (Print (MsgSecondary (secondary_ports w))) w in
  let w := emit (Print (MsgBaudrate (baudrate w))) w in
  let w := emit (Print MsgRule) w in
  let w := emit (Print MsgBlank) w in
  let w := set_running true w in
  let w := launch (mk_thread Main (main_port w)) w in
  let w := foldl (fun w '(i, port) => launch (mk_thread (Port i) port) w)
                 w (enumerate 1 (secondary_ports w)) in
  let w := emit (Print (MsgAllStarted (length (threads w)))) w in
  let w := emit (Print MsgReadyForCommands) w in
  let w := emit (Print MsgPressCtrlC) w in
  emit (Print MsgBlank) w.

(** [ser.close()] under [try] / [except: pass], then the [print]. *)
Definition close_connection (w : t) (entry : pystr * nat) : t :=
  match objects w !! entry.2 with
  | Some s =>
      emit (Print (MsgClosedPort entry.1))
           (set_objects (<[entry.2 := close s]> (objects w)) w)
  | None => w
  end.

(** [MultiPortDummyUUT.stop]; the connections are visited in the order of
    [map_to_list]. *)
Definition stop (w : t) : t :=
  let w := emit (Print MsgStopping) w in
  let w := set_running false w in
  let w := foldl close_connection w (map_to_list (serial_connections w)) in
  let w := foldl (fun w th => emit (ThreadJoin th 1000) w) w (threads w) in
  emit (Print MsgAllStopped) w.

(** The [except KeyboardInterrupt] clause of [start]. *)
Definition interrupt (w : t) : t :=
  stop (emit (Print MsgShutdownSignal) w).

(** The process running [main]: what it has printed before an object
    exists, the object once constructed, and the exit status once
    [sys.exit] is called. *)
Record process : Type := mk_process {
  stdout : list event;
  uut : option t;
  exit_status : option Z
}.

(** [secondary_ports = [port.strip() for port in args.ports.split(',')]]. *)
Definition parse_ports (ports : pystr) : list pystr :=
  map strip (split 44 ports).

(** [main], with the parsed arguments [args.main], [args.ports] and
    [args.baudrate], up to the wait for [Ctrl+C]. *)
Definition main (arg_main arg_ports : pystr) (arg_baudrate : Z) : process :=
  let secondary_ports := parse_ports arg_ports in
  if decide (length secondary_ports ≠ 3%nat) then
    mk_process [Print MsgPortCountError; Print MsgPortCountExample] None (Some 1%Z)
  else
    let uut := init arg_main secondary_ports arg_baudrate in
    mk_process [] (Some (start uut)) None.

(** What has been written to the port behind [ser]. *)
Definition written (ser : nat) (w : t) : pybytes :=
  match objects w !! ser with
  | Some s => out_buf s
  | None => []
  end.

(** The peer of the link behind [ser] sends [data]. *)
Definition feed (ser : nat) (data : pybytes) (w : t) : t :=
  match objects w !! ser with
  | Some s => set_objects (<[ser := mkSerial (is_open s) (in_buf s ++ data) (out_buf s)]> (objects w)) w
  | None => w
  end.

(** [n] passes of the loop of a handler in a row. *)
Fixpoint passes (n : nat) (r : role) (port : pystr) (ser : nat) (w : t) : t :=
  match n with
  | O => w
  | S n' => passes n' r port ser (iteration r port ser w).1
  end.

End MultiPort.

(** * The processing loops as a machine

    A simulator is what its loop reads and runs: the flag tested by
    [while self.running], one pass of the body, and the [stop] another
    thread may call. *)

Record simulator : Type := mk_simulator {
  sim_state : Type;
  sim_running : sim_state -> bool;
  sim_iteration : sim_state -> sim_state * outcome;
  sim_stop : sim_state -> sim_state
}.

(** The loop of [DummyUUT._process_commands]. *)
Definition generic_simulator : simulator :=
  mk_simulator DummyUUT.t DummyUUT.running DummyUUT.iteration DummyUUT.stop.

(** The loop of a handler of the group. *)
Definition handler_simulator (r : MultiPort.role) (port : pystr) (ser : nat)
    : simulator :=
  mk_simulator MultiPort.t MultiPort.running (MultiPort.iteration r port ser)
               MultiPort.stop.

(** Where the thread of the loop stands. *)
Inductive pc : Type :=
  | AtTest     (* about to evaluate [self.running] *)
  | InBody     (* inside a pass *)
  | Exited.    (* past the loop *)

(** A loop thread over the state of its simulator, with the number of
    passes begun and finished. *)
Record config (sim : simulator) : Type := mk_config {
  cfg_state : sim_state sim;
  cfg_pc : pc;
  cfg_begun : nat;
  cfg_finished : nat
}.
Arguments mk_config {sim}.
Arguments cfg_state {sim}.
Arguments cfg_pc {sim}.
Arguments cfg_begun {sim}.
Arguments cfg_finished {sim}.

Inductive action : Type :=
  | Tick        (* the loop thread moves *)
  | CallStop.   (* another thread calls [stop()] *)

Definition step {sim : simulator} (a : action) (c : config sim) : config sim :=
  match a with
  | CallStop =>
      mk_config (sim_stop sim (cfg_state c)) (cfg_pc c) (cfg_begun c) (cfg_finished c)
  | Tick =>
      match cfg_pc c with
      | AtTest =>
          if sim_running sim (cfg_state c)
          then mk_config (cfg_state c) InBody (S (cfg_begun c)) (cfg_finished c)
          else mk_config (cfg_state c) Exited (cfg_begun c) (cfg_finished c)
      | InBody =>
          let (s', o) := sim_iteration sim (cfg_state c) in
          mk_config s' (match o with Continue => AtTest | Break => Exited end)
                    (cfg_begun c) (S (cfg_finished c))
      | Exited => c
      end
  end.

Definition exec {sim : simulator} (acts : list action) (c : config sim) : config sim :=
  foldl (fun c a => step a c) c acts.

#[global] Instance action_eq_dec : EqDecision action.
Proof. solve_decision. Defined.

Definition ticks (acts : list action) : nat :=
  length (filter (fun a => a = Tick) acts).

(** * The words of the specification *)

Module Spec.

Import MultiPort.

(** The role vocabularies: command and response, without terminator. *)
Definition role_table (r : role) : list (pystr * pystr) :=
  match r with
  | Main =>
      [ (py "MAIN_POWER_ON", py "MAIN_POWER:ON");
        (py "MAIN_INIT", py "MAIN_INIT:OK");
        (py "MAIN_TEST_STATUS", py "MAIN_STATUS:READY");
        (py "MAIN_SELF_TEST", py "MAIN_SELF_TEST:PASS");
        (py "MAIN_SHUTDOWN", py "MAIN_SHUTDOWN:OK") ]
  | Port n =>
      [ (PORT n ++ py "_ENABLE", PORT n ++ py ":ENABLED");
        (PORT n ++ py "_TEST", PORT n ++ py ":TEST_OK");
        (PORT n ++ py "_DATA_CHECK", PORT n ++ py ":DATA_VALID");
        (PORT n ++ py "_DISABLE", PORT n ++ py ":DISABLED") ]
  end.

Definition role_prefix (r : role) : pystr :=
  match r with
  | Main => py "MAIN_"
  | Port n => PORT n ++ py "_"
  end.

Definition unknown_template (r : role) (c : pystr) : pystr :=
  match r with
  | Main => py "MAIN_UNKNOWN_CMD:" ++ c
  | Port n => PORT n ++ py "_UNKNOWN_CMD:" ++ c
  end.

Definition invalid_command (r : role) : pystr :=
  match r with
  | Main => py "MAIN_ERROR:INVALID_COMMAND"
  | Port n => PORT n ++ py "_ERROR:INVALID_COMMAND"
  end.

(** The first entry of a table for a command. *)
Fixpoint recognized (c : pystr) (table : list (pystr * pystr)) : option pystr :=
  match table with
  | [] => None
  | (k, v) :: table' => if decide (c = k) then Some v else recognized c table'
  end.

(** The response of a role to a trimmed command, as the specification
    words it. *)
Definition role_response (r : role) (c : pystr) : pystr :=
  match recognized c (role_table r) with
  | Some v => v ++ CRLF
  | None =>
      if startswith c (role_prefix r) then unknown_template r c ++ CRLF
      else invalid_command r ++ CRLF
  end.

(** The simulated processing time of the slow commands, in
    milliseconds. *)
Definition delay (r : role) (c : pystr) : option N :=
  match r with
  | Main => if decide (c = py "MAIN_SELF_TEST") then Some 500 else None
  | Port n => if decide (c = PORT n ++ py "_TEST") then Some 300 else None
  end.

(** A terminator character. *)
Definition terminator (c : N) : bool := (c =? CR) || (c =? LF).



(** A command with every terminator character removed. *)
Definition strip_terminators (c : pystr) : pystr :=
  filter (fun x => terminator x = false) c.

(** The invariant of section 3, the states Running and Stopping being the
    ones the code names [ONLINE]. *)
Definition handle_invariant (d : DummyUUT.t) : Prop :=
  DummyUUT.serial_port d ≠ None ↔ DummyUUT.device_state d = DummyUUT.ONLINE.

End Spec.

(** * Predicates of the statements *)

(** A text [str.encode('utf-8')] accepts. *)
Definition encodable (s : pystr) : Prop := Forall (λ c, scalar c = true) s.

(** A text that ends with CRLF. *)
Definition crlf_terminated (s : pystr) : Prop := ∃ body, s = body ++ CRLF.

(** A table whose stored responses all end with CRLF. *)
Definition responses_terminated (table : gmap pystr pystr) : Prop :=
  ∀ k v, table !! k = Some v → crlf_terminated v.

(** A table that stores, under every key whose terminator-stripped form
    is a key too, the response stored under that form. *)
Definition terminator_consistent (table : gmap pystr pystr) : Prop :=
  ∀ k v v', table !! k = Some v →
            table !! Spec.strip_terminators k = Some v' → v = v'.

(** What a pass of the generic simulator sends for a command: the stored
    response when there is one and it is not empty, the error text
    otherwise. *)
Definition reply (d : DummyUUT.t) (command : pystr) : pystr :=
  match DummyUUT._get_response d command with
  | Some (c :: r) => c :: r
  | _ => DummyUUT.error_response
  end.

(** The fields of a generic simulator a pass can be observed through. *)
Definition pass_result (d : DummyUUT.t)
    : option Serial * bool * DummyUUT.DeviceState * gmap pystr pystr :=
  (DummyUUT.serial_port d, DummyUUT.running d, DummyUUT.device_state d,
   DummyUUT.command_responses d).

(** What the lifecycle of a generic simulator consists of: the flag of
    the loop, the state shown, the number of threads launched and whether
    there is a port and it is open. *)
Definition lifecycle (d : DummyUUT.t)
    : bool * DummyUUT.DeviceState * nat * option bool :=
  (DummyUUT.running d, DummyUUT.device_state d, DummyUUT.command_threads d,
   is_open <$> DummyUUT.serial_port d).

(** A piece of code of the generic simulator that leaves the lifecycle
    alone. *)
Definition keeps {A} (c : M DummyUUT.t A) : Prop :=
  ∀ d, lifecycle (c d).1 = lifecycle d.

(** The states a generic simulator goes through: construction, then calls
    of [start], [stop] and [add_command], passes of its loop and bytes
    sent by the peer, in any order. *)
Inductive reachable (available : pystr → bool) : DummyUUT.t → Prop :=
  | reach_init port baud :
      reachable available (DummyUUT.init port baud)
  | reach_start d :
      reachable available d → reachable available (DummyUUT.start available d).1
  | reach_stop d :
      reachable available d → reachable available (DummyUUT.stop d)
  | reach_add_command d command response :
      reachable available d →
      reachable available (DummyUUT.add_command command response d)
  | reach_iteration d :
      reachable available d → reachable available (DummyUUT.iteration d).1
  | reach_feed d data :
      reachable available d → reachable available (DummyUUT.feed data d).

(** The invariant of the lifecycle as the code keeps it: the port is
    open exactly in the state [ONLINE], which is exactly when the flag of
    the loop is set, and there is no port object exactly as long as no
    [start] has succeeded. *)
Definition lifecycle_invariant (d : DummyUUT.t) : Prop :=
  (DummyUUT.running d = true ↔ DummyUUT.device_state d = DummyUUT.ONLINE)
  ∧ (DummyUUT.device_state d = DummyUUT.ONLINE ↔
     ∃ s, DummyUUT.serial_port d = Some s ∧ is_open s = true)
  ∧ (DummyUUT.serial_port d = None ↔ DummyUUT.command_threads d = 0%nat).

(** What a pass of a handler leaves alone in the group. *)
Definition group_frame (w : MultiPort.t)
    : bool * list MultiPort.thread * gmap pystr nat :=
  (MultiPort.running w, MultiPort.threads w, MultiPort.serial_connections w).

(** A piece of code of a handler that leaves the frame alone. *)
Definition keeps_group {A} (c : M MultiPort.t A) : Prop :=
  ∀ w, group_frame (c w).1 = group_frame w.

(** The moves a loop thread still has to make before it is past the
    loop, once the flag is cleared. *)
Definition moves_left (p : pc) : nat :=
  match p with
  | InBody => 2
  | AtTest => 1
  | Exited => 0
  end.

(** The passes in progress. *)
Definition in_progress (p : pc) : nat :=
  match p with
  | InBody => 1
  | _ => 0
  end.

(** [ser.close()] on the object behind a reference, if there is one. *)
Definition close_at (c : nat) (o : list Serial) : list Serial :=
  match o !! c with
  | Some s => <[c := close s]> o
  | None => o
  end.

(** Bytes that end with 0D 0A. *)
Definition ends_with_crlf (data : pybytes) : Prop :=
  ∃ body, data = body ++ [x0d; x0a].

(** The bytes of complete lines, each closed by LF. *)
Definition unlines (bodies : list pybytes) : pybytes :=
  concat (map (fun b => b ++ [x0a]) bodies).

(** What a pass of the generic simulator writes for one line: nothing
    when the line is not UTF-8, when it is blank, or when the text to
    send cannot be encoded; the bytes of that text otherwise. *)
Definition line_output (d : DummyUUT.t) (line : pybytes) : pybytes :=
  match decode line with
  | None => []
  | Some text =>
      match strip text with
      | [] => []
      | c :: cmd =>
          match encode (reply d (c :: cmd)) with
          | Some data => data
          | None => []
          end
      end
  end.

(** What a pass of a role handler writes for one line that decodes. *)
Definition handler_output (r : MultiPort.role) (line : pybytes) : pybytes :=
  match decode line with
  | None => []
  | Some text =>
      match encode (Spec.role_response r (strip text)) with
      | Some data => data
      | None => []
      end
  end.

(** The digits of a decimal numeral. *)
Definition is_digit (c : N) : bool := (48 <=? c) && (c <=? 57).

(** A connection registered under some port name. *)
Definition registered (w : MultiPort.t) (c : nat) : Prop :=
  ∃ port, MultiPort.serial_connections w !! port = Some c.

(** A piece of code that leaves a view of the state alone. *)
Definition preserves {S X A : Type} (view : S → X) (c : M S A) : Prop :=
  ∀ s, view (c s).1 = view s.

(** A platform on which every port can be opened. *)
Definition always (_ : pystr) : bool := true.

(** A generic simulator started on COM5 whose peer has sent [data]. *)
Definition generic_with (data : pybytes) : DummyUUT.t :=
  DummyUUT.feed data (DummyUUT.start always (DummyUUT.init (py "COM5") 115200)).1.

(** A group in which the handler of role [r] has opened [port] and whose
    peer has sent [data]; the port is the object 0. *)
Definition handler_with (r : MultiPort.role) (port : pystr) (data : pybytes)
    : MultiPort.t :=
  MultiPort.feed 0 data
    (MultiPort.handler_open always r port
       (MultiPort.start
          (MultiPort.init (py "COM6") [py "COM11"; py "COM12"; py "COM13"] 9600))).1.

(** * The simulators at work *)

Example generic_atz :
  let d := fst (DummyUUT.start always (DummyUUT.init (py "COM5") 115200)) in
  DummyUUT.written (fst (DummyUUT.iteration (DummyUUT.feed (pyb "ATZ") d)))
  = [x4f; x4b; x0d; x0a].
Proof. vm_compute. reflexivity. Qed.

Example main_foo :
  let w := MultiPort.init (py "COM6") [py "COM11"; py "COM12"; py "COM13"] 9600 in
  let w := fst (MultiPort.handler_open always MultiPort.Main (py "COM6") w) in
  let w := MultiPort.feed 0 (pyb "MAIN_FOO" ++ [x0d; x0a]) w in
  MultiPort.written 0 (fst (MultiPort.iteration MultiPort.Main (py "COM6") 0 w))
  = pyb "MAIN_UNKNOWN_CMD:MAIN_FOO" ++ [x0d; x0a].
Proof. vm_compute. reflexivity. Qed.

Example port2_test :
  let w := MultiPort.init (py "COM6") [py "COM11"; py "COM12"; py "COM13"] 9600 in
  let w := fst (MultiPort.handler_open always (MultiPort.Port 2) (py "COM12") w) in
  let w := MultiPort.feed 0 (pyb "PORT2_TEST" ++ [x0d; x0a]) w in
  MultiPort.written 0 (fst (MultiPort.iteration (MultiPort.Port 2) (py "COM12") 0 w))
  = pyb "PORT2:TEST_OK" ++ [x0d; x0a].
Proof. vm_compute. reflexivity. Qed.

Example decode_ascii : decode (pyb "MAIN_INIT") = Some (py "MAIN_INIT").
Proof. reflexivity. Qed.

Example decode_two : decode [xc3; xa9] = Some [0xE9].
Proof. reflexivity. Qed.

Example decode_bad : decode [xff; x0a] = None.
Proof. reflexivity. Qed.

Example decode_surrogate : decode [xed; xa0; x80] = None.
Proof. reflexivity. Qed.

Example encode_euro : encode [0x20AC] = Some [xe2; x82; xac].
Proof. reflexivity. Qed.

Example strip_ex : strip (py " AT" ++ CRLF) = py "AT".
Proof. reflexivity. Qed.

Example split_ex : split 44 (py "COM11,COM12") = [py "COM11"; py "COM12"].
Proof. reflexivity. Qed.

Example str_of_int_ex : str_of_int 12 = py "12".
Proof. reflexivity. Qed.


(** * Strings *)

Section Strings.

Lemma lstrip_split (s : pystr) :
  ∃ pre, s = pre ++ lstrip s ∧ Forall (λ c, isspace c = true) pre.
Proof.
  induction s as [|c s [pre [Hs Hpre]]]; simpl.
  - by exists [].
  - destruct (isspace c) eqn:Hc.
    + exists (c :: pre). split; [simpl; congruence | by constructor].
    + by exists [].
Qed.

Lemma lstrip_head (s : pystr) c r : lstrip s = c :: r → isspace c = false.
Proof.
  induction s as [|a s IH]; simpl; [done|].
  destruct (isspace a) eqn:Ha; [done|]. by intros [= <- <-].
Qed.

Lemma rstrip_split (s : pystr) :
  ∃ post, s = rstrip s ++ post ∧ Forall (λ c, isspace c = true) post.
Proof.
  unfold rstrip. destruct (lstrip_split (rev s)) as [pre [Hs Hpre]].
  exists (rev pre). split.
  - rewrite <- rev_app_distr, <- Hs. by rewrite rev_involutive.
  - by apply Forall_rev.
Qed.

Lemma rstrip_last (s : pystr) r c : rstrip s = r ++ [c] → isspace c = false.
Proof.
  unfold rstrip. intros H. apply (f_equal (@rev N)) in H.
  rewrite rev_involutive, rev_app_distr in H. simpl in H.
  by apply lstrip_head in H.
Qed.

(** [rstrip] leaves the first character alone unless nothing remains. *)
Lemma lstrip_app_keep (s t : pystr) c :
  isspace c = false → lstrip (s ++ c :: t) = lstrip s ++ c :: t.
Proof.
  intros Hc. induction s as [|a s IH]; simpl.
  - by rewrite Hc.
  - by destruct (isspace a).
Qed.

Lemma rstrip_cons_keep c (s : pystr) :
  isspace c = false → rstrip (c :: s) = c :: rstrip s.
Proof.
  intros Hc. unfold rstrip. simpl.
  rewrite (lstrip_app_keep (rev s) [] c Hc).
  by rewrite rev_app_distr.
Qed.

(** [str.strip]: the text is the command between two runs of whitespace,
    and the command neither starts nor ends with whitespace. *)
Lemma strip_spec (text : pystr) :
  ∃ pre post,
    text = pre ++ strip text ++ post
    ∧ Forall (λ c, isspace c = true) pre
    ∧ Forall (λ c, isspace c = true) post
    ∧ (∀ c r, strip text = c :: r → isspace c = false)
    ∧ (∀ r c, strip text = r ++ [c] → isspace c = false).
Proof.
  unfold strip.
  destruct (lstrip_split text) as [pre [Hpre Hpre']].
  destruct (rstrip_split (lstrip text)) as [post [Hpost Hpost']].
  exists pre, post. repeat split; try done.
  - by rewrite <- Hpost.
  - intros c r H. destruct (lstrip text) as [|a l] eqn:Hl.
    { by compute in H. }
    pose proof (lstrip_head _ _ _ Hl) as Ha.
    rewrite (rstrip_cons_keep _ _ Ha) in H. by injection H as <- _.
  - intros r c. apply rstrip_last.
Qed.

Lemma strip_sublist (P : N → Prop) (s : pystr) : Forall P s → Forall P (strip s).
Proof.
  intros H. destruct (strip_spec s) as (pre & post & Hs & _).
  rewrite Hs in H. apply Forall_app in H as [_ H]. by apply Forall_app in H as [H _].
Qed.

Lemma startswith_spec (s prefix : pystr) :
  startswith s prefix = true ↔ ∃ r, s = prefix ++ r.
Proof.
  revert s. induction prefix as [|p prefix IH]; intros s; simpl.
  - split; [intros _; by exists s | done].
  - destruct s as [|c s].
    + split; [done | by intros [r [=]]].
    + rewrite andb_true_iff, N.eqb_eq, IH. split.
      * intros [-> [r ->]]. by exists r.
      * intros [r H]. simpl in H. injection H as -> ->. eauto.
Qed.

Lemma split_length_pos sep (s : pystr) : (0 < length (split sep s))%nat.
Proof.
  induction s as [|c s IH]; simpl; [lia|].
  destruct (c =? sep); simpl; [lia|]. destruct (split sep s); simpl in *; lia.
Qed.

(** One more field than there are separators. *)
Lemma split_length sep (s : pystr) :
  length (split sep s) = S (length (filter (λ c, c = sep) s)).
Proof.
  induction s as [|c s IH]; simpl; [done|].
  rewrite filter_cons. destruct (N.eqb_spec c sep) as [->|Hne].
  - rewrite decide_True by done. simpl. by rewrite IH.
  - rewrite decide_False by done.
    destruct (split sep s) eqn:E; simpl in *; [lia | done].
Qed.

End Strings.

(** * UTF-8 *)

Section UTF8.

Lemma encode_char_scalar c : scalar c = true → is_Some (encode_char c).
Proof.
  unfold encode_char. intros H. rewrite H.
  destruct (c <? 0x80); [eauto|]. destruct (c <? 0x800); [eauto|].
  destruct (c <? 0x10000) eqn:E1; [eauto|].
  destruct (c <? 0x110000) eqn:E2; [eauto|].
  unfold scalar in H. apply orb_true_iff in H as [H|H].
  - apply N.ltb_lt in H. apply N.ltb_ge in E1. lia.
  - apply andb_true_iff in H as [_ H]. congruence.
Qed.

Lemma encode_encodable (s : pystr) : encodable s → is_Some (encode s).
Proof.
  induction 1 as [|c s Hc _ [bs IH]]; simpl; [eauto|].
  destruct (encode_char_scalar c Hc) as [b ->]. rewrite IH. eauto.
Qed.

Lemma encode_app (s u : pystr) :
  encode (s ++ u) =
  match encode s, encode u with
  | Some a, Some b => Some (a ++ b)
  | _, _ => None
  end.
Proof.
  induction s as [|c s IH]; simpl.
  - by destruct (encode u).
  - rewrite IH. destruct (encode_char c), (encode s), (encode u); simpl; try done.
    by rewrite app_assoc.
Qed.

Lemma encode_CRLF : encode CRLF = Some [x0d; x0a].
Proof. reflexivity. Qed.

(** The bytes of a text that ends with CRLF end with 0D 0A. *)
Lemma encode_ends_CRLF (s : pystr) data :
  encode (s ++ CRLF) = Some data →
  ∃ body, encode s = Some body ∧ data = body ++ [x0d; x0a].
Proof.
  rewrite encode_app, encode_CRLF. destruct (encode s) as [body|]; [|done].
  intros [= <-]. eauto.
Qed.

Lemma byte_val_bound b : byte_val b < 256.
Proof. unfold byte_val. pose proof (Byte.to_N_bounded b). lia. Qed.

Lemma py_encodable (s : string) : encodable (py s).
Proof.
  unfold encodable, py. apply Forall_map, Forall_forall. intros a _. simpl.
  unfold scalar. apply orb_true_iff. left. apply N.ltb_lt.
  pose proof (N_ascii_bounded a). lia.
Qed.

Ltac bool_to_prop :=
  repeat match goal with
  | H : (_ && _) = true |- _ => apply andb_true_iff in H as [? ?]
  | H : (_ <=? _) = true |- _ => apply N.leb_le in H
  | H : (_ <? _) = true |- _ => apply N.ltb_lt in H
  | H : (_ <? _) = false |- _ => apply N.ltb_ge in H
  | H : (_ =? _) = true |- _ => apply N.eqb_eq in H
  | H : (_ =? _) = false |- _ => apply N.eqb_neq in H
  end.

Lemma scalar_intro c : c < 0xD800 ∨ (0xDFFF < c ∧ c < 0x110000) → scalar c = true.
Proof.
  unfold scalar. intros [H|[H1 H2]]; apply orb_true_iff.
  - left. by apply N.ltb_lt.
  - right. apply andb_true_iff. split; by apply N.ltb_lt.
Qed.

Lemma decode_encodable_bounded (n : nat) :
  ∀ (bs : pybytes) (s : pystr),
    (length bs ≤ n)%nat → decode bs = Some s → encodable s.
Proof.
  induction n as [|n IH]; intros bs s Hlen.
  { destruct bs; [|simpl in Hlen; lia]. intros [= <-]. constructor. }
  destruct bs as [|b0 r0]; [intros [= <-]; constructor|].
  simpl in Hlen. cbn [decode]. cbv zeta.
  pose proof (byte_val_bound b0) as B0.
  destruct (byte_val b0 <? 0x80) eqn:E0.
  { destruct (decode r0) as [s0|] eqn:D; [|done]. intros [= <-].
    constructor; [|apply (IH r0); [lia|done]].
    bool_to_prop. apply scalar_intro. lia. }
  destruct r0 as [|b1 r1]; [done|]. simpl in Hlen.
  pose proof (byte_val_bound b1) as B1.
  destruct (in_range 0xC2 0xDF (byte_val b0)) eqn:E1.
  { destruct (cont (byte_val b1)) eqn:C1; [|done].
    destruct (decode r1) as [s1|] eqn:D; [|done]. intros [= <-].
    constructor; [|apply (IH r1); [lia|done]].
    unfold cont, in_range in *. bool_to_prop. apply scalar_intro. lia. }
  destruct r1 as [|b2 r2]; [done|]. simpl in Hlen.
  pose proof (byte_val_bound b2) as B2.
  destruct (in_range 0xE0 0xEF (byte_val b0)) eqn:E2.
  { match goal with |- (if ?c then _ else _) = _ → _ => destruct c eqn:C2 end; [|done].
    destruct (decode r2) as [s2|] eqn:D; [|done]. intros [= <-].
    constructor; [|apply (IH r2); [lia|done]].
    unfold cont, in_range in *. bool_to_prop. apply scalar_intro.
    destruct (N.eqb_spec (byte_val b0) 0xE0), (N.eqb_spec (byte_val b0) 0xED); lia. }
  destruct r2 as [|b3 r3]; [done|]. simpl in Hlen.
  pose proof (byte_val_bound b3) as B3.
  destruct (in_range 0xF0 0xF4 (byte_val b0)) eqn:E3; [|done].
  match goal with |- (if ?c then _ else _) = _ → _ => destruct c eqn:C3 end; [|done].
  destruct (decode r3) as [s3|] eqn:D; [|done]. intros [= <-].
  constructor; [|apply (IH r3); [lia|done]].
  unfold cont, in_range in *. bool_to_prop. apply scalar_intro.
  destruct (N.eqb_spec (byte_val b0) 0xF0), (N.eqb_spec (byte_val b0) 0xF4); lia.
Qed.

(** What [decode] returns, [encode] accepts. *)
Lemma decode_encodable (bs : pybytes) (s : pystr) :
  decode bs = Some s → encodable s.
Proof. apply (decode_encodable_bounded (length bs)). lia. Qed.

End UTF8.

(** * The command table of the generic simulator *)

Section CommandTable.

Import DummyUUT.

Lemma remove_chars_strip_terminators (c : pystr) :
  remove_char LF (remove_char CR c) = Spec.strip_terminators c.
Proof.
  unfold remove_char, Spec.strip_terminators, Spec.terminator.
  rewrite list_filter_filter. apply list_filter_iff. intros x.
  rewrite orb_false_iff, !N.eqb_neq. tauto.
Qed.

Lemma strip_terminators_app (a b : pystr) :
  Spec.strip_terminators (a ++ b)
  = Spec.strip_terminators a ++ Spec.strip_terminators b.
Proof. unfold Spec.strip_terminators. apply filter_app. Qed.

Lemma strip_terminators_CRLF (c : pystr) :
  Spec.strip_terminators (c ++ CRLF) = Spec.strip_terminators c.
Proof. rewrite strip_terminators_app. simpl. by rewrite app_nil_r. Qed.

Lemma strip_terminators_idemp (c : pystr) :
  Spec.strip_terminators (Spec.strip_terminators c) = Spec.strip_terminators c.
Proof.
  unfold Spec.strip_terminators. induction c as [|x c IH]; [done|].
  rewrite filter_cons. case_decide as Hx; [|done].
  rewrite filter_cons, decide_True by done. by rewrite IH.
Qed.

(** The three attempts of [_get_response], in their order. *)
Lemma get_response_precedence (d : t) (c : pystr) :
  _get_response d c =
  match command_responses d !! c with
  | Some r => Some r
  | None =>
      match command_responses d !! (c ++ CRLF) with
      | Some r => Some r
      | None => command_responses d !! Spec.strip_terminators c
      end
  end.
Proof.
  unfold _get_response. rewrite remove_chars_strip_terminators.
  by repeat case_match.
Qed.

Lemma get_response_None (d : t) (c : pystr) :
  _get_response d c = None ↔
  command_responses d !! c = None
  ∧ command_responses d !! (c ++ CRLF) = None
  ∧ command_responses d !! Spec.strip_terminators c = None.
Proof.
  rewrite get_response_precedence.
  destruct (command_responses d !! c), (command_responses d !! (c ++ CRLF)),
    (command_responses d !! Spec.strip_terminators c);
    split; try done; by intros (? & ? & ?).
Qed.

Lemma get_response_consistent (d : t) (c r : pystr) :
  terminator_consistent (command_responses d) →
  command_responses d !! Spec.strip_terminators c = Some r →
  _get_response d c = Some r.
Proof.
  intros Hcons Hr. rewrite get_response_precedence.
  destruct (command_responses d !! c) as [r0|] eqn:E0.
  { f_equal. by apply (Hcons c). }
  destruct (command_responses d !! (c ++ CRLF)) as [r1|] eqn:E1; [|done].
  f_equal. apply (Hcons (c ++ CRLF)); [done|].
  by rewrite strip_terminators_CRLF.
Qed.

Lemma default_commands_lookup k v :
  (list_to_map default_commands : gmap pystr pystr) !! k = Some v →
  (k, v) ∈ default_commands.
Proof. apply elem_of_list_to_map_2. Qed.

Ltac each_default H :=
  apply default_commands_lookup in H; unfold default_commands in H;
  repeat (apply elem_of_cons in H as [H|H]; [injection H as -> ->|]);
  [..|by apply elem_of_nil in H].

Lemma default_terminator_consistent :
  terminator_consistent (list_to_map default_commands).
Proof.
  intros k v v' H. each_default H; vm_compute; congruence.
Qed.

Lemma default_responses_terminated :
  responses_terminated (list_to_map default_commands).
Proof.
  intros k v H. unfold crlf_terminated. each_default H.
  all: match goal with
       | |- ∃ body, ?v = _ => exists (take (length v - 2) v)
       end; vm_compute; reflexivity.
Qed.

Lemma add_command_responses_terminated (d : t) (command response : pystr) :
  responses_terminated (command_responses d) →
  crlf_terminated response →
  responses_terminated (command_responses (add_command command response d)).
Proof.
  intros Hd Hr k v. simpl. rewrite lookup_insert.
  case_decide; [by intros [= <-] | apply Hd].
Qed.

(** C1, as amended.  [_get_response] tries the command as received, then
    with CRLF appended, then with every CR and LF removed, in this order,
    and returns [None] exactly when the three keys are all absent.  When
    the table is terminator-consistent, as the built-in one is, and holds
    an entry for the stripped form of [c], the lookups of [c], of
    [c + CRLF] and of the stripped form all return that entry. *)
Theorem get_response_lookup_policy (d : t) (c : pystr) :
  (∀ r, command_responses d !! c = Some r → _get_response d c = Some r)
  ∧ (∀ r, command_responses d !! c = None →
          command_responses d !! (c ++ CRLF) = Some r →
          _get_response d c = Some r)
  ∧ (command_responses d !! c = None →
     command_responses d !! (c ++ CRLF) = None →
     _get_response d c = command_responses d !! Spec.strip_terminators c)
  ∧ (_get_response d c = None ↔
     command_responses d !! c = None
     ∧ command_responses d !! (c ++ CRLF) = None
     ∧ command_responses d !! Spec.strip_terminators c = None)
  ∧ (terminator_consistent (command_responses d) →
     ∀ r, command_responses d !! Spec.strip_terminators c = Some r →
          _get_response d c = Some r
          ∧ _get_response d (c ++ CRLF) = Some r
          ∧ _get_response d (Spec.strip_terminators c) = Some r)
  ∧ (∀ port baud, terminator_consistent (command_responses (init port baud))).
Proof.
  split; [|split; [|split; [|split; [|split]]]].
  - intros r H. rewrite get_response_precedence. by rewrite H.
  - intros r H0 H1. rewrite get_response_precedence. by rewrite H0, H1.
  - intros H0 H1. rewrite get_response_precedence. by rewrite H0, H1.
  - apply get_response_None.
  - intros Hcons r Hr. split; [|split]; apply get_response_consistent; try done.
    + by rewrite strip_terminators_CRLF.
    + by rewrite strip_terminators_idemp.
  - intros port baud. exact default_terminator_consistent.
Qed.

Lemma get_response_lookup_policy_witness :
  let d := init (py "COM5") 115200 in
  terminator_consistent (command_responses d)
  ∧ _get_response d (py "ATZ") = Some (py "OK" ++ CRLF)
  ∧ _get_response d (py "ATZ" ++ CRLF) = Some (py "OK" ++ CRLF).
Proof.
  intros d.
  destruct (get_response_lookup_policy d (py "ATZ")) as (_ & _ & _ & _ & H & Hd).
  split; [exact (Hd (py "COM5") 115200%Z)|].
  destruct (H (Hd (py "COM5") 115200%Z) (py "OK" ++ CRLF)) as (H1 & H2 & _).
  - reflexivity.
  - exact (conj H1 H2).
Defined.

(** C1, as stated, fails once [add_command] has stored different
    responses under a command and under the same command with CRLF: the
    stripped form ["ATZ"] has an entry, and the lookups of ["ATZ"] and of
    ["ATZ\r\n"] return different entries. *)
Lemma get_response_not_terminator_insensitive :
  let d := add_command (py "ATZ") (py "RESET" ++ CRLF) (init (py "COM5") 115200) in
  command_responses d !! Spec.strip_terminators (py "ATZ") = Some (py "RESET" ++ CRLF)
  ∧ _get_response d (py "ATZ") = Some (py "RESET" ++ CRLF)
  ∧ _get_response d (py "ATZ" ++ CRLF) = Some (py "OK" ++ CRLF)
  ∧ _get_response d (py "ATZ") ≠ _get_response d (py "ATZ" ++ CRLF).
Proof. vm_compute. repeat split; congruence. Qed.

End CommandTable.

(** * One pass of the generic simulator *)

Section GenericPass.

Import DummyUUT.

Variables (d : t) (s : Serial).
Hypothesis Hport : serial_port d = Some s.
Hypothesis Hopen : is_open s = true.

Lemma in_waiting_pos : in_buf s ≠ [] → in_waiting s = Ok (N.of_nat (length (in_buf s))) ∧ (0 <? N.of_nat (length (in_buf s))) = true.
Proof.
  intros H. unfold in_waiting. rewrite Hopen. split; [done|].
  apply N.ltb_lt. destruct (in_buf s); [done|simpl; lia].
Qed.

Lemma read_command_eq :
  read_command d =
  (set_serial_port (Some (after_read s)) d,
   match decode (next_line s) with
   | Some text => Ok (strip text)
   | None => Raise UnicodeDecodeError
   end).
Proof.
  unfold read_command, bind, on_port, read_until, decode_utf8.
  rewrite Hport, Hopen. by destruct (decode (next_line s)).
Qed.

Lemma iteration_idle :
  in_buf s = [] → iteration d = (emit (Sleep 10) d, Continue).
Proof.
  intros H. unfold iteration, try_except, process_try, bind, port_in_waiting.
  rewrite Hport. unfold in_waiting. rewrite Hopen, H. reflexivity.
Qed.

Lemma iteration_decode_fault :
  in_buf s ≠ [] → decode (next_line s) = None →
  iteration d =
  (emit (Sleep 100)
     (emit (Log ERROR (MsgProcessingError UnicodeDecodeError))
        (set_serial_port (Some (after_read s)) d)),
   Continue).
Proof.
  intros Hbuf Hdec. destruct (in_waiting_pos Hbuf) as [Hn Hpos].
  unfold iteration, try_except, process_try, bind at 1, port_in_waiting.
  rewrite Hport, Hn, Hpos. unfold bind at 1. unfold bind at 1.
  rewrite read_command_eq, Hdec. reflexivity.
Qed.

Lemma iteration_empty_command text :
  in_buf s ≠ [] → decode (next_line s) = Some text → strip text = [] →
  iteration d = (emit (Sleep 10) (set_serial_port (Some (after_read s)) d), Continue).
Proof.
  intros Hbuf Hdec Hstrip. destruct (in_waiting_pos Hbuf) as [Hn Hpos].
  unfold iteration, try_except, process_try, bind at 1, port_in_waiting.
  rewrite Hport, Hn, Hpos. unfold bind at 1. unfold bind at 1.
  rewrite read_command_eq, Hdec, Hstrip. reflexivity.
Qed.

Lemma iteration_command text :
  in_buf s ≠ [] → decode (next_line s) = Some text → strip text ≠ [] →
  snd (iteration d) = Continue
  ∧ pass_result (fst (iteration d)) =
    (Some (match encode (reply d (strip text)) with
           | Some data =>
               mkSerial true (in_buf (after_read s)) (out_buf s ++ data)
           | None => after_read s
           end),
     running d, device_state d, command_responses d).
Proof.
  intros Hbuf Hdec Hstrip. destruct (in_waiting_pos Hbuf) as [Hn Hpos].
  split; [done|].
  unfold iteration, try_except, process_try, bind at 1, port_in_waiting.
  rewrite Hport, Hn, Hpos. unfold bind at 1. unfold bind at 1.
  rewrite read_command_eq, Hdec.
  destruct (strip text) as [|c0 cmd] eqn:Hcmd; [done|]. cbn [nonempty].
  unfold reply, bind, log, sleep, modify, gets, encode_utf8, on_port, write.
  cbn -[encode _get_response error_response strip].
  replace (_get_response _ (c0 :: cmd)) with (_get_response d (c0 :: cmd)) by done.
  destruct (_get_response d (c0 :: cmd)) as [[|c r]|];
    match goal with
    | |- context [encode ?x] => destruct (encode x)
    end; reflexivity.
Qed.

End GenericPass.

(** * The responses of the role handlers *)

Section RoleResponses.

Import MultiPort.

Lemma PORT_suffix_inj (n : N) (a b : pystr) :
  PORT n ++ a = PORT n ++ b → a = b.
Proof. apply app_inv_head. Qed.

Ltac distinct_keys :=
  match goal with
  | H1 : ?c = _, H2 : ?c = _ |- _ =>
      rewrite H1 in H2; first [discriminate H2 | apply PORT_suffix_inj in H2; discriminate H2]
  end.

(** The [if]/[elif] chain of a handler returns the response of the role
    vocabulary, after the delay of the command when it has one. *)
Lemma respond_role_response (r : role) (c : pystr) (w : t) :
  respond r c w =
  (match Spec.delay r c with Some ms => emit (Sleep ms) w | None => w end,
   Ok (Spec.role_response r c)).
Proof.
  destruct r as [|n]; unfold respond, Spec.role_response, Spec.delay.
  - unfold main_response. cbn [Spec.role_table Spec.recognized Spec.role_prefix
      Spec.unknown_template Spec.invalid_command].
    repeat case_decide; try distinct_keys; try reflexivity.
    destruct (startswith c (py "MAIN_")); reflexivity.
  - unfold port_response. cbn [Spec.role_table Spec.recognized Spec.role_prefix
      Spec.unknown_template Spec.invalid_command].
    repeat case_decide; try distinct_keys; try reflexivity.
    all: try destruct (startswith c (PORT n ++ py "_")).
    all: by rewrite <- !app_assoc.
Qed.

Lemma CRLF_encodable : encodable CRLF.
Proof. repeat constructor. Qed.

Lemma role_response_encodable (r : role) (c : pystr) :
  encodable c → encodable (Spec.role_response r c).
Proof.
  intros Hc. unfold Spec.role_response.
  destruct r as [|n]; cbn [Spec.role_table Spec.recognized Spec.role_prefix
      Spec.unknown_template Spec.invalid_command];
    repeat case_decide; try case_match; unfold PORT, str_of_int, encodable;
    rewrite ?Forall_app; repeat split;
    first [apply py_encodable | apply CRLF_encodable | exact Hc].
Qed.

End RoleResponses.

(** * One pass of a role handler *)

Section RolePass.

Import MultiPort.

Variables (r : role) (port : pystr) (ser : nat) (w : t) (s : Serial).
Hypothesis Hobj : objects w !! ser = Some s.
Hypothesis Hopen : is_open s = true.

Lemma handler_read_command :
  read_command ser w =
  (set_objects (<[ser := after_read s]> (objects w)) w,
   match decode (next_line s) with
   | Some text => Ok (strip text)
   | None => Raise UnicodeDecodeError
   end).
Proof.
  unfold read_command, bind, on_ser, readline, read_until, decode_utf8.
  rewrite Hobj, Hopen. by destruct (decode (next_line s)).
Qed.

Lemma handler_idle :
  in_buf s = [] → iteration r port ser w = (emit (Sleep 10) w, Continue).
Proof.
  intros H. unfold iteration, handler_try, bind, ser_in_waiting.
  rewrite Hobj. unfold in_waiting. rewrite Hopen, H. reflexivity.
Qed.

Lemma handler_decode_fault :
  in_buf s ≠ [] → decode (next_line s) = None →
  iteration r port ser w =
  (emit (LogLine port (MsgError r UnicodeDecodeError))
     (set_objects (<[ser := after_read s]> (objects w)) w),
   Break).
Proof.
  intros Hbuf Hdec. destruct (in_waiting_pos s Hopen Hbuf) as [Hn Hpos].
  unfold iteration, handler_try, bind at 1, ser_in_waiting.
  rewrite Hobj, Hn, Hpos. unfold bind at 1. unfold bind at 1.
  rewrite handler_read_command, Hdec. reflexivity.
Qed.

Lemma handler_command_eq text data :
  in_buf s ≠ [] → decode (next_line s) = Some text →
  encode (Spec.role_response r (strip text)) = Some data →
  iteration r port ser w =
  (let w1 := emit (LogLine port (MsgRX (strip text)))
               (set_objects (<[ser := after_read s]> (objects w)) w) in
   let w2 := match Spec.delay r (strip text) with
             | Some ms => emit (Sleep ms) w1
             | None => w1
             end in
   let w3 := set_objects
               (<[ser := mkSerial true (in_buf (after_read s)) (out_buf s ++ data)]>
                  (objects w)) w2 in
   emit (Sleep 10)
     (emit (LogLine port (MsgTX (strip (Spec.role_response r (strip text))))) w3),
   Continue).
Proof.
  intros Hbuf Hdec Hdata. destruct (in_waiting_pos s Hopen Hbuf) as [Hn Hpos].
  pose proof (lookup_lt_Some _ _ _ Hobj) as Hlt.
  unfold iteration, handler_try, bind at 1, ser_in_waiting.
  rewrite Hobj, Hn, Hpos. unfold bind at 1. unfold bind at 1.
  rewrite handler_read_command, Hdec.
  unfold bind at 1. unfold log at 1, modify at 1.
  unfold bind at 1. rewrite respond_role_response.
  unfold bind at 1, encode_utf8. rewrite Hdata. unfold ret at 1.
  unfold bind at 1, on_ser, write.
  destruct (Spec.delay r (strip text)); cbn [objects emit set_objects];
    rewrite list_lookup_insert_eq by done; cbn [is_open after_read];
    rewrite list_insert_insert_eq; reflexivity.
Qed.

(** A pass that finds a line that decodes: the line is consumed, the
    response of the role to the trimmed line is written, and the loop
    goes on. *)
Lemma handler_command text :
  in_buf s ≠ [] → decode (next_line s) = Some text →
  ∃ data,
    encode (Spec.role_response r (strip text)) = Some data
    ∧ snd (iteration r port ser w) = Continue
    ∧ objects (fst (iteration r port ser w)) =
      <[ser := mkSerial true (in_buf (after_read s)) (out_buf s ++ data)]> (objects w)
    ∧ running (fst (iteration r port ser w)) = running w
    ∧ serial_connections (fst (iteration r port ser w)) = serial_connections w.
Proof.
  intros Hbuf Hdec.
  destruct (encode_encodable (Spec.role_response r (strip text))) as [data Hdata].
  { apply role_response_encodable, strip_sublist, (decode_encodable _ _ Hdec). }
  exists data. split; [done|].
  rewrite (handler_command_eq text data Hbuf Hdec Hdata).
  by destruct (Spec.delay r (strip text)).
Qed.

End RolePass.

(** * The role vocabularies *)

Section RoleVocabulary.

Import MultiPort.






Lemma role_response_empty (r : role) :
  Spec.role_response r [] = Spec.invalid_command r ++ CRLF.
Proof. by destruct r. Qed.

End RoleVocabulary.

(** * The claims on one pass of a loop *)

Section Passes.

Lemma written_insert (ser : nat) (w w' : MultiPort.t) (s s' : Serial) :
  MultiPort.objects w !! ser = Some s →
  MultiPort.objects w' = <[ser := s']> (MultiPort.objects w) →
  MultiPort.written ser w' = out_buf s'.
Proof.
  intros Hobj Hw'. unfold MultiPort.written. rewrite Hw'.
  rewrite list_lookup_insert_eq; [done|]. by eapply lookup_lt_Some.
Qed.



(** C4, as amended.  On a line whose trimmed content is empty the
    generic simulator writes nothing and logs nothing: the pass only
    consumes the line and sleeps.  A role handler has no such test: it
    answers the empty command with its invalid-command response. *)
Theorem blank_line_handling :
  (∀ (d : DummyUUT.t) (s : Serial) (text : pystr),
     DummyUUT.serial_port d = Some s →
     is_open s = true →
     in_buf s ≠ [] →
     decode (next_line s) = Some text →
     strip text = [] →
     DummyUUT.written (DummyUUT.iteration d).1 = out_buf s
     ∧ DummyUUT.trace (DummyUUT.iteration d).1
       = DummyUUT.trace d ++ [DummyUUT.Sleep 10]
     ∧ (DummyUUT.iteration d).2 = Continue)
  ∧ (∀ (r : MultiPort.role) (port : pystr) (ser : nat) (w : MultiPort.t)
       (s : Serial) (text : pystr),
       MultiPort.objects w !! ser = Some s →
       is_open s = true →
       in_buf s ≠ [] →
       decode (next_line s) = Some text →
       strip text = [] →
       ∃ data,
         encode (Spec.invalid_command r ++ CRLF) = Some data
         ∧ MultiPort.written ser (MultiPort.iteration r port ser w).1
           = out_buf s ++ data).
Proof.
  split.
  - intros d s text Hport Hopen Hbuf Hdec Hstrip.
    by rewrite (iteration_empty_command d s Hport Hopen text Hbuf Hdec Hstrip).
  - intros r port ser w s text Hobj Hopen Hbuf Hdec Hstrip.
    destruct (handler_command r port ser w s Hobj Hopen text Hbuf Hdec)
      as (data & Hdata & _ & Hobjs & _).
    rewrite Hstrip, role_response_empty in Hdata. exists data. split; [done|].
    by rewrite (written_insert ser w _ s _ Hobj Hobjs).
Qed.

Lemma blank_line_handling_witness :
  DummyUUT.written (DummyUUT.iteration (generic_with [x0d; x0a])).1 = []
  ∧ ∃ data,
      encode (Spec.invalid_command MultiPort.Main ++ CRLF) = Some data
      ∧ MultiPort.written 0
          (MultiPort.iteration MultiPort.Main (py "COM6") 0
             (handler_with MultiPort.Main (py "COM6") [x0d; x0a])).1
        = [] ++ data.
Proof.
  destruct blank_line_handling as [G R]. split.
  - apply (G (generic_with [x0d; x0a]) (mkSerial true [x0d; x0a] []) CRLF).
    + reflexivity.
    + reflexivity.
    + discriminate.
    + reflexivity.
    + reflexivity.
  - apply (R MultiPort.Main (py "COM6") 0%nat
             (handler_with MultiPort.Main (py "COM6") [x0d; x0a])
             (mkSerial true [x0d; x0a] []) CRLF).
    + reflexivity.
    + reflexivity.
    + discriminate.
    + reflexivity.
    + reflexivity.
Defined.

(** C4, as stated, fails for the role handlers: the main handler that
    receives an empty line writes [MAIN_ERROR:INVALID_COMMAND]. *)
Lemma role_handler_answers_blank_line :
  let w := handler_with MultiPort.Main (py "COM6") [x0d; x0a] in
  MultiPort.written 0 w = []
  ∧ MultiPort.written 0 (MultiPort.iteration MultiPort.Main (py "COM6") 0 w).1
    = pyb "MAIN_ERROR:INVALID_COMMAND" ++ [x0d; x0a]
  ∧ MultiPort.written 0 (MultiPort.iteration MultiPort.Main (py "COM6") 0 w).1
    ≠ MultiPort.written 0 w.
Proof. vm_compute. repeat split; discriminate. Qed.




Lemma finally_after_decode_fault (r : MultiPort.role) (port : pystr) (ser : nat)
    (w : MultiPort.t) (s : Serial) :
  MultiPort.objects w !! ser = Some s →
  is_open s = true →
  in_buf s ≠ [] →
  decode (next_line s) = None →
  MultiPort.objects (MultiPort.handler_finally r port (MultiPort.iteration r port ser w).1)
    !! ser
  = Some (if decide (MultiPort.serial_connections w !! port = Some ser)
          then close (after_read s) else after_read s).
Proof.
  intros Hobj Hopen Hbuf Hdec.
  rewrite (handler_decode_fault r port ser w s Hobj Hopen Hbuf Hdec).
  pose proof (lookup_lt_Some _ _ _ Hobj) as Hlt.
  unfold MultiPort.handler_finally.
  cbn [fst MultiPort.serial_connections MultiPort.objects MultiPort.emit
       MultiPort.set_objects].
  destruct (MultiPort.serial_connections w !! port) as [c|] eqn:Hc.
  - destruct (decide (c = ser)) as [->|Hne].
    + rewrite decide_True by done.
      rewrite list_lookup_insert_eq by done. cbn.
      rewrite list_lookup_insert_eq; [done|by rewrite length_insert].
    + rewrite decide_False by congruence.
      rewrite list_lookup_insert_ne by done.
      destruct (MultiPort.objects w !! c) as [s2|]; cbn.
      * rewrite list_lookup_insert_ne by done.
        by rewrite list_lookup_insert_eq.
      * by rewrite list_lookup_insert_eq.
  - rewrite decide_False by done. cbn. by rewrite list_lookup_insert_eq.
Qed.

(** C6, as amended.  A line that is not UTF-8 is a recoverable fault for
    the generic simulator only: it logs the error, sleeps and goes on
    with the loop, its flag and its state unchanged.  A role handler
    treats it as any exception that is not a timeout: it prints the
    error and leaves its loop.  Its [finally] clause then closes the
    connection registered under its port name: that is the handler's own
    port, which ends closed, unless another connection is registered
    under that name, in which case the handler's own port stays open. *)
Theorem decoding_fault_handling :
  (∀ (d : DummyUUT.t) (s : Serial),
     DummyUUT.serial_port d = Some s →
     is_open s = true →
     in_buf s ≠ [] →
     decode (next_line s) = None →
     (DummyUUT.iteration d).2 = Continue
     ∧ DummyUUT.running (DummyUUT.iteration d).1 = DummyUUT.running d
     ∧ DummyUUT.device_state (DummyUUT.iteration d).1 = DummyUUT.device_state d
     ∧ DummyUUT.written (DummyUUT.iteration d).1 = out_buf s
     ∧ DummyUUT.trace (DummyUUT.iteration d).1
       = DummyUUT.trace d
         ++ [DummyUUT.Log ERROR (DummyUUT.MsgProcessingError UnicodeDecodeError);
             DummyUUT.Sleep 100])
  ∧ (∀ (r : MultiPort.role) (port : pystr) (ser : nat) (w : MultiPort.t)
       (s : Serial),
       MultiPort.objects w !! ser = Some s →
       is_open s = true →
       in_buf s ≠ [] →
       decode (next_line s) = None →
       (MultiPort.iteration r port ser w).2 = Break
       ∧ MultiPort.written ser (MultiPort.iteration r port ser w).1 = out_buf s
       ∧ MultiPort.trace (MultiPort.iteration r port ser w).1
         = MultiPort.trace w
           ++ [MultiPort.LogLine port (MultiPort.MsgError r UnicodeDecodeError)]
       ∧ (∀ fuel, MultiPort.running w = true →
            MultiPort.handler_loop (S fuel) r port ser w
            = Some (MultiPort.iteration r port ser w).1)
       ∧ (MultiPort.serial_connections w !! port = Some ser →
          ∃ s', MultiPort.objects
                  (MultiPort.handler_finally r port (MultiPort.iteration r port ser w).1)
                  !! ser = Some s'
                ∧ is_open s' = false ∧ out_buf s' = out_buf s)
       ∧ (MultiPort.serial_connections w !! port ≠ Some ser →
          ∃ s', MultiPort.objects
                  (MultiPort.handler_finally r port (MultiPort.iteration r port ser w).1)
                  !! ser = Some s'
                ∧ is_open s' = true ∧ out_buf s' = out_buf s)
       ∧ MultiPort.trace
           (MultiPort.handler_finally r port (MultiPort.iteration r port ser w).1)
         = MultiPort.trace w
           ++ [MultiPort.LogLine port (MultiPort.MsgError r UnicodeDecodeError);
               MultiPort.LogLine port (MultiPort.MsgClosed r)]).
Proof.
  split.
  - intros d s Hport Hopen Hbuf Hdec.
    rewrite (iteration_decode_fault d s Hport Hopen Hbuf Hdec).
    repeat split; try done. simpl. by rewrite <- app_assoc.
  - intros r port ser w s Hobj Hopen Hbuf Hdec.
    pose proof (finally_after_decode_fault r port ser w s Hobj Hopen Hbuf Hdec) as F.
    pose proof (handler_decode_fault r port ser w s Hobj Hopen Hbuf Hdec) as E.
    split; [by rewrite E|]. split.
    { rewrite E. by apply (written_insert ser w _ s (after_read s)). }
    split; [by rewrite E|]. split.
    { intros fuel Hrun. simpl. by rewrite Hrun, E. }
    split; [|split].
    + intros Hc. rewrite decide_True in F by done.
      exists (close (after_read s)). split; [done|]. split; reflexivity.
    + intros Hc. rewrite decide_False in F by done.
      exists (after_read s). by split.
    + rewrite E. unfold MultiPort.handler_finally.
      cbn [fst MultiPort.serial_connections MultiPort.objects MultiPort.emit
           MultiPort.set_objects].
      destruct (MultiPort.serial_connections w !! port) as [c|]; cbn;
        [destruct (<[ser:=after_read s]> (MultiPort.objects w) !! c); cbn|];
        by rewrite <- app_assoc.
Qed.

Lemma decoding_fault_handling_witness :
  (DummyUUT.iteration (generic_with [xff; x0a])).2 = Continue
  ∧ (MultiPort.iteration MultiPort.Main (py "COM6") 0
       (handler_with MultiPort.Main (py "COM6") [xff; x0a])).2 = Break
  ∧ ∃ s', MultiPort.objects
            (MultiPort.handler_finally MultiPort.Main (py "COM6")
               (MultiPort.iteration MultiPort.Main (py "COM6") 0
                  (handler_with MultiPort.Main (py "COM6") [xff; x0a])).1)
            !! 0%nat = Some s'
          ∧ is_open s' = false ∧ out_buf s' = [].
Proof.
  destruct decoding_fault_handling as [G R]. split.
  - apply (G (generic_with [xff; x0a]) (mkSerial true [xff; x0a] [])).
    + reflexivity.
    + reflexivity.
    + discriminate.
    + reflexivity.
  - destruct (R MultiPort.Main (py "COM6") 0%nat
                (handler_with MultiPort.Main (py "COM6") [xff; x0a])
                (mkSerial true [xff; x0a] []))
      as (H1 & _ & _ & _ & H2 & _).
    + reflexivity.
    + reflexivity.
    + discriminate.
    + reflexivity.
    + split; [exact H1|]. apply H2. reflexivity.
Defined.

(** Two handlers registered under one port name: the fault of the first
    closes the port of the second and leaves its own open. *)
Example decoding_fault_shared_port_name :
  let w0 := (MultiPort.handler_open always MultiPort.Main (py "COM6")
               (MultiPort.start
                  (MultiPort.init (py "COM6") [py "COM6"; py "COM12"; py "COM13"] 9600))).1 in
  let w1 := (MultiPort.handler_open always (MultiPort.Port 1) (py "COM6") w0).1 in
  let w2 := MultiPort.feed 0 [xff; x0a] w1 in
  (MultiPort.iteration MultiPort.Main (py "COM6") 0 w2).2 = Break
  ∧ map is_open
      (MultiPort.objects
         (MultiPort.handler_finally MultiPort.Main (py "COM6")
            (MultiPort.iteration MultiPort.Main (py "COM6") 0 w2).1))
    = [true; false].
Proof. vm_compute. done. Qed.

(** C6, as stated, fails for the role handlers: on a line that is not
    UTF-8 the main handler leaves its loop while the group is still
    running, and its [finally] clause closes the port. *)
Lemma role_handler_leaves_loop_on_decoding_fault :
  let w := handler_with MultiPort.Main (py "COM6") [xff; x0a] in
  decode [xff; x0a] = None
  ∧ MultiPort.running w = true
  ∧ (MultiPort.iteration MultiPort.Main (py "COM6") 0 w).2 = Break
  ∧ (MultiPort.iteration MultiPort.Main (py "COM6") 0 w).2 ≠ Continue
  ∧ ∃ w', MultiPort.handler_loop 1 MultiPort.Main (py "COM6") 0 w = Some w'
          ∧ MultiPort.running w' = true
          ∧ is_open <$> MultiPort.objects
                          (MultiPort.handler_finally MultiPort.Main (py "COM6") w') !! 0%nat
            = Some false.
Proof.
  vm_compute. repeat split; try discriminate. eexists. repeat split.
Qed.

Lemma reply_terminated (d : DummyUUT.t) (command : pystr) :
  responses_terminated (DummyUUT.command_responses d) →
  crlf_terminated (reply d command).
Proof.
  intros Hterm. unfold reply, DummyUUT._get_response.
  repeat case_match; simplify_eq; try (by eexists);
    match goal with
    | H : DummyUUT.command_responses d !! _ = Some (?c :: ?l) |- _ =>
        exact (Hterm _ _ H)
    end.
Qed.

(** C10, as amended.  The generic simulator writes the stored response as
    it is stored, and the error text when the command has no response or
    an empty one.  When every stored response ends with CRLF, as in the
    built-in table and after any [add_command] whose response ends with
    CRLF, the text sent for a non-empty command ends with CRLF and so do
    the bytes written, whatever terminator the line carried. *)
Theorem generic_response_terminated :
  (∀ (d : DummyUUT.t) (s : Serial) (text : pystr),
     DummyUUT.serial_port d = Some s →
     is_open s = true →
     in_buf s ≠ [] →
     decode (next_line s) = Some text →
     strip text ≠ [] →
     (∀ data, encode (reply d (strip text)) = Some data →
        DummyUUT.written (DummyUUT.iteration d).1 = out_buf s ++ data)
     ∧ (encode (reply d (strip text)) = None →
        DummyUUT.written (DummyUUT.iteration d).1 = out_buf s)
     ∧ (responses_terminated (DummyUUT.command_responses d) →
        crlf_terminated (reply d (strip text))
        ∧ ∀ data, encode (reply d (strip text)) = Some data → ends_with_crlf data))
  ∧ (∀ port baud,
       responses_terminated (DummyUUT.command_responses (DummyUUT.init port baud)))
  ∧ (∀ d command response,
       responses_terminated (DummyUUT.command_responses d) →
       crlf_terminated response →
       responses_terminated
         (DummyUUT.command_responses (DummyUUT.add_command command response d))).
Proof.
  split; [|split].
  - intros d s text Hport Hopen Hbuf Hdec Hcmd.
    destruct (iteration_command d s Hport Hopen text Hbuf Hdec Hcmd) as [_ Hres].
    unfold pass_result in Hres. injection Hres as Hp _ _ _.
    unfold DummyUUT.written, DummyUUT.iteration. cbn [fst].
    rewrite Hp. split; [|split].
    + by intros data ->.
    + by intros ->.
    + intros Hterm. pose proof (reply_terminated d (strip text) Hterm) as Hcrlf.
      split; [done|]. intros data Hdata.
      destruct Hcrlf as [body Hbody]. rewrite Hbody in Hdata.
      apply encode_ends_CRLF in Hdata as (b & _ & ->). by exists b.
  - intros port baud. exact default_responses_terminated.
  - apply add_command_responses_terminated.
Qed.

Lemma generic_response_terminated_witness :
  let d := generic_with (pyb "NOPE") in
  DummyUUT.written (DummyUUT.iteration d).1
  = pyb "ERROR: Unknown command" ++ [x0d; x0a]
  ∧ ends_with_crlf (pyb "ERROR: Unknown command" ++ [x0d; x0a]).
Proof.
  intros d. destruct generic_response_terminated as (G & T & _).
  destruct (G d (mkSerial true (pyb "NOPE") []) (py "NOPE")) as (W & _ & E).
  - reflexivity.
  - reflexivity.
  - discriminate.
  - reflexivity.
  - discriminate.
  - split.
    + apply (W (pyb "ERROR: Unknown command" ++ [x0d; x0a])). reflexivity.
    + apply (E (T (py "COM5") 115200%Z)). reflexivity.
Defined.

Lemma not_ends_with_crlf_PONG : ¬ ends_with_crlf (pyb "PONG").
Proof.
  intros [body H]. apply (f_equal (@rev byte)) in H.
  rewrite rev_app_distr in H. discriminate H.
Qed.

(** C10, as stated, fails for a command added at runtime with a response
    that has no terminator: the bytes written are the response alone. *)
Lemma hot_added_response_not_terminated :
  let d := DummyUUT.add_command (py "PING") (py "PONG")
             (generic_with (pyb "PING" ++ [x0d; x0a])) in
  DummyUUT.written d = []
  ∧ DummyUUT.written (DummyUUT.iteration d).1 = pyb "PONG"
  ∧ ¬ ends_with_crlf (DummyUUT.written (DummyUUT.iteration d).1).
Proof.
  split; [reflexivity|]. split; [vm_compute; reflexivity|].
  replace (DummyUUT.written _) with (pyb "PONG") by (vm_compute; reflexivity).
  exact not_ends_with_crlf_PONG.
Qed.

End Passes.

(** * What the loops leave alone *)

Section Frames.

Lemma keeps_ret {A} (a : A) : keeps (ret a).
Proof. done. Qed.

Lemma keeps_raise {A} e : keeps (@raise _ A e).
Proof. done. Qed.

Lemma keeps_gets {A} (f : DummyUUT.t → A) : keeps (gets f).
Proof. done. Qed.

Lemma keeps_log lv m : keeps (DummyUUT.log lv m).
Proof. done. Qed.

Lemma keeps_sleep ms : keeps (DummyUUT.sleep ms).
Proof. done. Qed.

Lemma keeps_bind {A B} (c : M DummyUUT.t A) (k : A → M DummyUUT.t B) :
  keeps c → (∀ a, keeps (k a)) → keeps (bind c k).
Proof.
  intros Hc Hk d. unfold bind. specialize (Hc d).
  destruct (c d) as [d' [a|e]]; simpl in *; [|done].
  by rewrite Hk.
Qed.

Lemma keeps_try_except {A} (c : M DummyUUT.t A) (h : exn → M DummyUUT.t A) :
  keeps c → (∀ e, keeps (h e)) → keeps (try_except c h).
Proof.
  intros Hc Hh d. unfold try_except. specialize (Hc d).
  destruct (c d) as [d' [a|e]]; simpl in *; [done|].
  by rewrite Hh.
Qed.

Lemma keeps_decode_utf8 b : keeps (decode_utf8 b).
Proof. unfold decode_utf8. by destruct (decode b). Qed.

Lemma keeps_encode_utf8 s : keeps (encode_utf8 s).
Proof. unfold encode_utf8. by destruct (encode s). Qed.

Lemma keeps_port_in_waiting : keeps DummyUUT.port_in_waiting.
Proof. intros d. unfold DummyUUT.port_in_waiting. by destruct (DummyUUT.serial_port d). Qed.

Lemma keeps_on_port {A} (f : Serial → result (A * Serial)) :
  (∀ s a s', f s = Ok (a, s') → is_open s' = is_open s) →
  keeps (DummyUUT.on_port f).
Proof.
  intros Hf d. unfold DummyUUT.on_port.
  destruct (DummyUUT.serial_port d) as [s|] eqn:Hs; [|done].
  destruct (f s) as [[a s']|e] eqn:E; [|done].
  unfold lifecycle. simpl. rewrite Hs. simpl. by rewrite (Hf _ _ _ E).
Qed.

Lemma read_until_open s l s' : read_until s = Ok (l, s') → is_open s' = is_open s.
Proof.
  unfold read_until. destruct (is_open s) eqn:E; [|done]. by intros [= _ <-].
Qed.

Lemma write_open data s a s' : write data s = Ok (a, s') → is_open s' = is_open s.
Proof.
  unfold write. destruct (is_open s) eqn:E; [|done]. by intros [= _ <-].
Qed.

Lemma keeps_read_command : keeps DummyUUT.read_command.
Proof.
  unfold DummyUUT.read_command.
  apply keeps_bind; [apply keeps_on_port, read_until_open|]. intros raw.
  apply keeps_bind; [apply keeps_decode_utf8|]. intros text. apply keeps_ret.
Qed.

Ltac keeps_step :=
  first
    [ apply keeps_ret | apply keeps_log | apply keeps_sleep | apply keeps_gets
    | apply keeps_port_in_waiting | apply keeps_read_command
    | apply keeps_encode_utf8
    | apply keeps_on_port; intros ? ? ?; apply write_open
    | apply keeps_bind; [|intros ?] ].

Lemma keeps_process_try : keeps DummyUUT.process_try.
Proof.
  unfold DummyUUT.process_try.
  apply keeps_bind; [apply keeps_port_in_waiting|]. intros n.
  apply keeps_bind; [|intros ?; apply keeps_sleep].
  destruct (0 <? n); [|apply keeps_ret].
  apply keeps_bind; [apply keeps_read_command|]. intros command.
  destruct (nonempty command); [|apply keeps_ret].
  apply keeps_bind; [apply keeps_log|]. intros _.
  apply keeps_bind; [apply keeps_gets|]. intros response.
  apply keeps_bind; [apply keeps_sleep|]. intros _.
  destruct response as [[|c r]|]; repeat keeps_step.
Qed.

(** A pass of the generic loop changes neither the flag, nor the state
    shown, nor whether the port is open. *)
Lemma iteration_lifecycle (d : DummyUUT.t) :
  lifecycle (DummyUUT.iteration d).1 = lifecycle d.
Proof.
  unfold DummyUUT.iteration. cbn [fst].
  apply keeps_try_except; [apply keeps_process_try|].
  intros e. unfold DummyUUT.process_except. repeat keeps_step.
Qed.

Lemma iteration_running (d : DummyUUT.t) :
  DummyUUT.running (DummyUUT.iteration d).1 = DummyUUT.running d.
Proof. exact (f_equal (λ x, x.1.1.1) (iteration_lifecycle d)). Qed.

Lemma stop_running (d : DummyUUT.t) : DummyUUT.running (DummyUUT.stop d) = false.
Proof.
  unfold DummyUUT.stop. cbn. destruct (DummyUUT.serial_port d) as [s|]; [|done].
  by destruct (is_open s).
Qed.

End Frames.

Section GroupFrames.

Import MultiPort.

Lemma group_ret {A} (a : A) : keeps_group (ret a).
Proof. done. Qed.

Lemma group_log port m : keeps_group (log port m).
Proof. done. Qed.

Lemma group_sleep ms : keeps_group (sleep ms).
Proof. done. Qed.

Lemma group_bind {A B} (c : M t A) (k : A → M t B) :
  keeps_group c → (∀ a, keeps_group (k a)) → keeps_group (bind c k).
Proof.
  intros Hc Hk w. unfold bind. specialize (Hc w).
  destruct (c w) as [w' [a|e]]; simpl in *; [|done].
  by rewrite Hk.
Qed.

Lemma group_decode_utf8 b : keeps_group (decode_utf8 b).
Proof. unfold decode_utf8. by destruct (decode b). Qed.

Lemma group_encode_utf8 s : keeps_group (encode_utf8 s).
Proof. unfold encode_utf8. by destruct (encode s). Qed.

Lemma group_ser_in_waiting ser : keeps_group (ser_in_waiting ser).
Proof. intros w. unfold ser_in_waiting. by destruct (objects w !! ser). Qed.

Lemma group_on_ser {A} ser (f : Serial → result (A * Serial)) :
  keeps_group (on_ser ser f).
Proof.
  intros w. unfold on_ser. destruct (objects w !! ser) as [s|]; [|done].
  by destruct (f s) as [[a s']|e].
Qed.

Lemma group_respond r c : keeps_group (respond r c).
Proof. intros w. rewrite respond_role_response. by destruct (Spec.delay r c). Qed.

Ltac group_step :=
  first
    [ apply group_ret | apply group_log | apply group_sleep
    | apply group_ser_in_waiting | apply group_on_ser | apply group_respond
    | apply group_decode_utf8 | apply group_encode_utf8
    | apply group_bind; [|intros ?] ].

Lemma group_handler_try r port ser : keeps_group (handler_try r port ser).
Proof.
  unfold handler_try, read_command.
  apply group_bind; [apply group_ser_in_waiting|]. intros n.
  apply group_bind; [|intros ?; apply group_sleep].
  destruct (0 <? n); repeat group_step.
Qed.

(** A pass of a handler changes neither the flag of the group, nor its
    threads, nor its table of connections. *)
Lemma handler_iteration_frame r port ser (w : t) :
  group_frame (iteration r port ser w).1 = group_frame w.
Proof.
  unfold iteration. pose proof (group_handler_try r port ser w) as H.
  destruct (handler_try r port ser w) as [w' [a|e]]; [done|].
  by destruct e.
Qed.

Lemma handler_iteration_running r port ser (w : t) :
  running (iteration r port ser w).1 = running w.
Proof. exact (f_equal (λ x, x.1.1) (handler_iteration_frame r port ser w)). Qed.

Lemma close_connection_frame (w : t) e :
  running (close_connection w e) = running w
  ∧ threads (close_connection w e) = threads w
  ∧ serial_connections (close_connection w e) = serial_connections w
  ∧ objects (close_connection w e) = close_at e.2 (objects w).
Proof.
  unfold close_connection, close_at. by destruct (objects w !! e.2).
Qed.

Lemma close_all_frame l (w : t) :
  running (foldl close_connection w l) = running w
  ∧ threads (foldl close_connection w l) = threads w
  ∧ serial_connections (foldl close_connection w l) = serial_connections w
  ∧ objects (foldl close_connection w l)
    = foldl (λ o e, close_at e.2 o) (objects w) l.
Proof.
  revert w. induction l as [|e l IH]; intros w; [done|]. simpl.
  destruct (IH (close_connection w e)) as (-> & -> & -> & ->).
  by destruct (close_connection_frame w e) as (-> & -> & -> & ->).
Qed.

Lemma join_all_frame ths (w : t) :
  let w' := foldl (λ w th, emit (ThreadJoin th 1000) w) w ths in
  running w' = running w ∧ threads w' = threads w
  ∧ serial_connections w' = serial_connections w ∧ objects w' = objects w.
Proof.
  revert w. induction ths as [|th ths IH]; intros w; [done|]. simpl.
  by destruct (IH (emit (ThreadJoin th 1000) w)) as (-> & -> & -> & ->).
Qed.

(** The fields [stop] leaves, and the objects it closes. *)
Lemma stop_fields (w : t) :
  running (stop w) = false
  ∧ threads (stop w) = threads w
  ∧ serial_connections (stop w) = serial_connections w
  ∧ objects (stop w)
    = foldl (λ o e, close_at e.2 o) (objects w) (map_to_list (serial_connections w)).
Proof.
  unfold stop. cbn [running threads serial_connections objects emit].
  match goal with
  | |- context [foldl (λ w th, emit (ThreadJoin th 1000) w) ?w0 ?ths] =>
      destruct (join_all_frame ths w0) as (-> & -> & -> & ->)
  end.
  match goal with
  | |- context [foldl close_connection ?w0 ?l] =>
      destruct (close_all_frame l w0) as (-> & -> & -> & ->)
  end.
  done.
Qed.

Lemma close_idemp s : close (close s) = close s.
Proof. unfold close. by destruct (is_open s) eqn:E; simpl; rewrite ?E. Qed.

Lemma close_closed s : is_open (close s) = false.
Proof. unfold close. by destruct (is_open s) eqn:E. Qed.

Lemma close_at_lookup c (o : list Serial) i :
  close_at c o !! i = if decide (i = c) then close <$> o !! i else o !! i.
Proof.
  unfold close_at. destruct (o !! c) as [s|] eqn:E.
  - case_decide as Hi.
    + subst. rewrite list_lookup_insert_eq by (by eapply lookup_lt_Some).
      by rewrite E.
    + by rewrite list_lookup_insert_ne.
  - case_decide; [subst; by rewrite E|done].
Qed.

Lemma close_all_lookup (l : list (pystr * nat)) (o : list Serial) i :
  foldl (λ o e, close_at e.2 o) o l !! i
  = if decide (i ∈ l.*2) then close <$> o !! i else o !! i.
Proof.
  revert o. induction l as [|e l IH]; intros o.
  - destruct (decide (i ∈ ([] : list (pystr * nat)).*2)) as [H|H];
      [by apply elem_of_nil in H|done].
  - cbn [foldl]. rewrite IH, close_at_lookup, fmap_cons.
    destruct (decide (i = e.2)) as [->|Hne].
    + rewrite (decide_True (P := e.2 ∈ e.2 :: l.*2)) by apply list_elem_of_here.
      case_decide; [|done]. destruct (o !! e.2); simpl; [|done].
      by rewrite close_idemp.
    + destruct (decide (i ∈ l.*2)) as [Hin|Hnot].
      * by rewrite decide_True by (by apply list_elem_of_further).
      * rewrite decide_False; [done|]. by intros [?|?]%elem_of_cons.
Qed.

Lemma close_all_idemp (l : list (pystr * nat)) (o : list Serial) :
  foldl (λ o e, close_at e.2 o) (foldl (λ o e, close_at e.2 o) o l) l
  = foldl (λ o e, close_at e.2 o) o l.
Proof.
  apply list_eq. intros i. rewrite !close_all_lookup.
  case_decide; [|done]. destruct (o !! i); simpl; [|done].
  by rewrite close_idemp.
Qed.

End GroupFrames.

(** * Stopping a loop *)

Section StopObserved.

Variable sim : simulator.
Hypothesis iteration_keeps_flag :
  ∀ s, sim_running sim (sim_iteration sim s).1 = sim_running sim s.
Hypothesis stop_clears_flag : ∀ s, sim_running sim (sim_stop sim s) = false.

Lemma ticks_cons a acts :
  ticks (a :: acts) = (if decide (a = Tick) then S (ticks acts) else ticks acts).
Proof. unfold ticks. rewrite filter_cons. by case_decide. Qed.

Lemma step_cleared (a : action) (c : config sim) :
  sim_running sim (cfg_state c) = false →
  sim_running sim (cfg_state (step a c)) = false
  ∧ cfg_begun (step a c) = cfg_begun c
  ∧ (cfg_finished (step a c) + in_progress (cfg_pc (step a c))
     = cfg_finished c + in_progress (cfg_pc c))%nat
  ∧ (in_progress (cfg_pc (step a c)) ≤ in_progress (cfg_pc c))%nat
  ∧ (moves_left (cfg_pc (step a c)) + (if decide (a = Tick) then 1 else 0)
     ≤ Nat.max (if decide (a = Tick) then 1 else 0) (moves_left (cfg_pc c)))%nat.
Proof.
  intros Hflag.
  destruct a; [rewrite !decide_True by done|rewrite !decide_False by done];
    unfold step.
  - destruct (cfg_pc c) eqn:Hpc.
    + rewrite Hflag. cbn. repeat split; try done; lia.
    + pose proof (iteration_keeps_flag (cfg_state c)) as Hk.
      destruct (sim_iteration sim (cfg_state c)) as [s' o]. cbn in *.
      rewrite Hk, Hflag. destruct o; cbn; repeat split; try done; lia.
    + rewrite Hpc. cbn. repeat split; try done; lia.
  - cbn. rewrite stop_clears_flag. repeat split; try done. lia.
Qed.

Lemma exec_cleared (acts : list action) (c : config sim) :
  sim_running sim (cfg_state c) = false →
  sim_running sim (cfg_state (exec acts c)) = false
  ∧ cfg_begun (exec acts c) = cfg_begun c
  ∧ (cfg_finished (exec acts c) + in_progress (cfg_pc (exec acts c))
     = cfg_finished c + in_progress (cfg_pc c))%nat
  ∧ (in_progress (cfg_pc (exec acts c)) ≤ in_progress (cfg_pc c))%nat
  ∧ (2 ≤ ticks acts → cfg_pc (exec acts c) = Exited)%nat.
Proof.
  intros Hflag.
  cut (sim_running sim (cfg_state (exec acts c)) = false
       ∧ cfg_begun (exec acts c) = cfg_begun c
       ∧ (cfg_finished (exec acts c) + in_progress (cfg_pc (exec acts c))
          = cfg_finished c + in_progress (cfg_pc c))%nat
       ∧ (in_progress (cfg_pc (exec acts c)) ≤ in_progress (cfg_pc c))%nat
       ∧ (moves_left (cfg_pc (exec acts c)) + ticks acts
          ≤ Nat.max (ticks acts) (moves_left (cfg_pc c)))%nat).
  { intros (H1 & H2 & H3 & H4 & H5). repeat split; try done. intros Ht.
    destruct (cfg_pc (exec acts c)), (cfg_pc c); simpl in *; try done; lia. }
  revert c Hflag. induction acts as [|a acts IH]; intros c Hflag.
  { simpl. repeat split; try done. unfold ticks. simpl. lia. }
  destruct (step_cleared a c Hflag) as (S1 & S2 & S3 & S4 & S5).
  destruct (IH (step a c) S1) as (I1 & I2 & I3 & I4 & I5).
  unfold exec in *. cbn [foldl]. rewrite ticks_cons.
  split; [done|]. split; [congruence|]. split; [lia|]. split; [lia|].
  destruct (decide (a = Tick)); lia.
Qed.

(** Once [stop] has been called, whatever the loop thread and further
    calls of [stop] do: no pass is begun, at most the pass in progress is
    finished, and two moves of the thread (the end of that pass and the
    test of the flag) take it past the loop. *)
Lemma stop_observed (before after : list action) (c : config sim) :
  let c1 := exec (before ++ [CallStop]) c in
  let c2 := exec after c1 in
  sim_running sim (cfg_state c2) = false
  ∧ cfg_begun c2 = cfg_begun c1
  ∧ (cfg_finished c2 ≤ cfg_finished c1 + 1)%nat
  ∧ (cfg_pc c1 ≠ InBody → cfg_finished c2 = cfg_finished c1)
  ∧ (2 ≤ ticks after → cfg_pc c2 = Exited)%nat.
Proof.
  intros c1 c2.
  assert (sim_running sim (cfg_state c1) = false) as Hflag.
  { unfold c1, exec. rewrite foldl_app. simpl. apply stop_clears_flag. }
  destruct (exec_cleared after c1 Hflag) as (H1 & H2 & H3 & H4 & H5).
  fold c2 in H1, H2, H3, H4, H5. repeat split; try done.
  - destruct (cfg_pc c2), (cfg_pc c1); simpl in *; lia.
  - intros Hpc. destruct (cfg_pc c2), (cfg_pc c1); simpl in *; try done; lia.
Qed.

End StopObserved.

(** C3.  Every loop tests the flag once per pass, before the pass.  Once
    [stop] has cleared the flag, the loop of the generic simulator and
    the loop of every role handler begin no new pass, finish at most the
    pass in progress, and are past the loop after two moves of their
    thread. *)
Theorem stop_observed_at_next_test (before after : list action) :
  (∀ c : config generic_simulator,
     let c1 := exec (before ++ [CallStop]) c in
     let c2 := exec after c1 in
     DummyUUT.running (cfg_state c2) = false
     ∧ cfg_begun c2 = cfg_begun c1
     ∧ (cfg_finished c2 ≤ cfg_finished c1 + 1)%nat
     ∧ (cfg_pc c1 ≠ InBody → cfg_finished c2 = cfg_finished c1)
     ∧ (2 ≤ ticks after → cfg_pc c2 = Exited)%nat)
  ∧ (∀ r port ser (c : config (handler_simulator r port ser)),
       let c1 := exec (before ++ [CallStop]) c in
       let c2 := exec after c1 in
       MultiPort.running (cfg_state c2) = false
       ∧ cfg_begun c2 = cfg_begun c1
       ∧ (cfg_finished c2 ≤ cfg_finished c1 + 1)%nat
       ∧ (cfg_pc c1 ≠ InBody → cfg_finished c2 = cfg_finished c1)
       ∧ (2 ≤ ticks after → cfg_pc c2 = Exited)%nat).
Proof.
  split.
  - intros c. apply (stop_observed generic_simulator iteration_running stop_running).
  - intros r port ser c.
    apply (stop_observed (handler_simulator r port ser)).
    + apply handler_iteration_running.
    + intros w. apply stop_fields.
Qed.

Example stop_during_pass :
  let c := mk_config (sim := generic_simulator) (generic_with (pyb "ATZ")) AtTest 0 0 in
  let c2 := exec [Tick; CallStop; Tick; Tick; Tick] c in
  cfg_pc c2 = Exited ∧ cfg_begun c2 = 1%nat ∧ cfg_finished c2 = 1%nat
  ∧ DummyUUT.written (cfg_state c2) = [].
Proof. vm_compute. done. Qed.

Lemma stop_observed_at_next_test_witness :
  let c := mk_config (sim := generic_simulator) (generic_with (pyb "ATZ")) AtTest 0 0 in
  let c1 := exec ([Tick] ++ [CallStop]) c in
  let c2 := exec [Tick; Tick; Tick] c1 in
  cfg_begun c2 = cfg_begun c1 ∧ cfg_pc c2 = Exited.
Proof.
  intros c c1 c2.
  destruct (stop_observed_at_next_test [Tick] [Tick; Tick; Tick]) as [H _].
  destruct (H c) as (_ & Hb & _ & _ & Hx).
  split; [exact Hb|]. apply Hx. vm_compute. lia.
Defined.

(** * Launching the group *)

Section Launch.

Import MultiPort.

Lemma parse_ports_length (ports : pystr) :
  length (parse_ports ports) = S (length (filter (λ c, c = 44) ports)).
Proof. unfold parse_ports. by rewrite length_map, split_length. Qed.

(** C7.  When the list of secondary ports has not exactly 3 entries,
    [main] prints the two lines of the error and exits with status 1
    before a [MultiPortDummyUUT] is constructed: there is no object, so
    no thread has been started and no port opened. *)
Theorem main_rejects_wrong_port_count (arg_main arg_ports : pystr) (arg_baudrate : Z) :
  length (parse_ports arg_ports) ≠ 3%nat →
  let p := main arg_main arg_ports arg_baudrate in
  exit_status p = Some 1%Z
  ∧ exit_status p ≠ Some 0%Z
  ∧ uut p = None
  ∧ stdout p = [Print MsgPortCountError; Print MsgPortCountExample]
  ∧ (∀ th, ThreadStart th ∉ stdout p).
Proof.
  intros Hlen p. unfold p, main. rewrite decide_True by done. simpl.
  repeat split; try done.
  intros th H. repeat (apply elem_of_cons in H as [H|H]; [discriminate H|]).
  by apply elem_of_nil in H.
Qed.

Lemma main_rejects_wrong_port_count_witness :
  let p := main (py "COM6") (py "COM11,COM12") 9600 in
  exit_status p = Some 1%Z ∧ uut p = None.
Proof.
  intros p.
  destruct (main_rejects_wrong_port_count (py "COM6") (py "COM11,COM12") 9600)
    as (H1 & _ & H2 & _).
  - vm_compute. lia.
  - exact (conj H1 H2).
Defined.

(** With 3 entries the object is constructed and started: the flag is
    set and the four threads are launched. *)
Lemma main_accepts_three_ports (arg_main arg_ports : pystr) (arg_baudrate : Z) p1 p2 p3 :
  parse_ports arg_ports = [p1; p2; p3] →
  ∃ w, main arg_main arg_ports arg_baudrate = mk_process [] (Some w) None
       ∧ running w = true
       ∧ threads w = [mk_thread Main arg_main; mk_thread (Port 1) p1;
                      mk_thread (Port 2) p2; mk_thread (Port 3) p3]
       ∧ objects w = [].
Proof.
  intros H. unfold main. rewrite H. eexists. split; [reflexivity|]. done.
Qed.

Example main_default_ports :
  ∃ w, main (py "COM6") (py "COM11,COM12,COM13") 9600 = mk_process [] (Some w) None
       ∧ length (threads w) = 4%nat.
Proof. eexists. split; [vm_compute; reflexivity|]. reflexivity. Qed.

Example main_trailing_comma :
  exit_status (main (py "COM6") (py "COM11,COM12,COM13,") 9600) = Some 1%Z.
Proof. reflexivity. Qed.

End Launch.

(** * Stopping twice *)

Section StopTwice.

Lemma generic_stop_idemp (d : DummyUUT.t) :
  DummyUUT.stop (DummyUUT.stop d) = DummyUUT.stop d.
Proof.
  unfold DummyUUT.stop. destruct d as [pn br [s|] rn st cr ct tr]; cbn; [|done].
  destruct (is_open s) eqn:E; cbn; [|by rewrite E].
  unfold close. rewrite E. done.
Qed.

(** C8.  A second [stop()] changes nothing and cannot fail.  For the
    generic simulator the second call finds the port closed, calls no
    [close] and logs nothing: the whole object, trace included, is the
    one the first call left, with the flag cleared, the state [OFFLINE]
    and no open port.  For the group the second call finds every
    connection closed by the first, so that its [close] calls do nothing:
    flag, threads, connections and [Serial] objects are the ones the
    first call left. *)
Theorem stop_twice :
  (∀ d : DummyUUT.t,
     DummyUUT.stop (DummyUUT.stop d) = DummyUUT.stop d
     ∧ DummyUUT.running (DummyUUT.stop d) = false
     ∧ DummyUUT.device_state (DummyUUT.stop d) = DummyUUT.OFFLINE
     ∧ (∀ s, DummyUUT.serial_port (DummyUUT.stop d) = Some s → is_open s = false))
  ∧ (∀ w : MultiPort.t,
       let w1 := MultiPort.stop w in
       let w2 := MultiPort.stop w1 in
       MultiPort.running w2 = false
       ∧ MultiPort.running w1 = false
       ∧ MultiPort.objects w2 = MultiPort.objects w1
       ∧ MultiPort.serial_connections w2 = MultiPort.serial_connections w1
       ∧ MultiPort.threads w2 = MultiPort.threads w1
       ∧ (∀ port c s, MultiPort.serial_connections w !! port = Some c →
            MultiPort.objects w1 !! c = Some s →
            is_open s = false ∧ close s = s)).
Proof.
  split.
  - intros d. split; [apply generic_stop_idemp|]. split; [apply stop_running|].
    unfold DummyUUT.stop.
    destruct d as [pn br [s|] rn st cr ct tr]; cbn; [|done].
    destruct (is_open s) eqn:E; cbn; split; try done.
    + intros s' [= <-]. apply close_closed.
    + by intros s' [= <-].
  - intros w w1 w2.
    destruct (stop_fields w) as (R1 & T1 & C1 & O1).
    destruct (stop_fields w1) as (R2 & T2 & C2 & O2).
    fold w1 in R1, T1, C1, O1. fold w2 in R2, T2, C2, O2.
    split; [done|]. split; [done|]. split.
    { rewrite O2, C1, O1. apply close_all_idemp. }
    split; [done|]. split; [done|].
    intros port c s Hc Hs. rewrite O1, close_all_lookup in Hs.
    rewrite decide_True in Hs.
    + destruct (MultiPort.objects w !! c) as [s0|]; [|done].
      injection Hs as <-. split; [apply close_closed|apply close_idemp].
    + apply (list_elem_of_fmap_2 snd _ (port, c)).
      by apply elem_of_map_to_list.
Qed.

Lemma stop_twice_witness :
  let d := DummyUUT.stop (generic_with (pyb "ATZ")) in
  DummyUUT.stop d = d
  ∧ DummyUUT.serial_port d = Some (mkSerial false (pyb "ATZ") [])
  ∧ is_open (mkSerial false (pyb "ATZ") []) = false.
Proof.
  intros d. destruct stop_twice as [G _].
  destruct (G (generic_with (pyb "ATZ"))) as (H1 & _ & _ & H2).
  split; [exact H1|]. split; [reflexivity|].
  apply (H2 (mkSerial false (pyb "ATZ") [])). reflexivity.
Defined.

Example stop_twice_started :
  let d := generic_with (pyb "ATZ") in
  DummyUUT.trace (DummyUUT.stop (DummyUUT.stop d)) = DummyUUT.trace (DummyUUT.stop d)
  ∧ is_open <$> DummyUUT.serial_port (DummyUUT.stop d) = Some false.
Proof. vm_compute. done. Qed.

End StopTwice.

(** * The lifecycle of the generic simulator *)

Section Lifecycle.

Variable available : pystr → bool.

Lemma open_port_iff (o : option Serial) :
  (∃ s, o = Some s ∧ is_open s = true) ↔ is_open <$> o = Some true.
Proof.
  destruct o as [s|]; simpl.
  - split; [by intros (s' & [= <-] & ->)|intros [= H]; eauto].
  - split; [by intros (s' & H & _)|done].
Qed.

Lemma no_port_iff (o : option Serial) : o = None ↔ is_open <$> o = None.
Proof. by destruct o. Qed.

Lemma invariant_lifecycle (d d' : DummyUUT.t) :
  lifecycle d' = lifecycle d → lifecycle_invariant d → lifecycle_invariant d'.
Proof.
  unfold lifecycle, lifecycle_invariant. intros [= Hr Hs Hn Ho].
  rewrite !open_port_iff, !no_port_iff, Hr, Hs, Hn, Ho. done.
Qed.

Lemma init_invariant port baud : lifecycle_invariant (DummyUUT.init port baud).
Proof.
  unfold lifecycle_invariant. simpl. repeat split; try done.
  by intros (s & H & _).
Qed.

Lemma start_invariant (d : DummyUUT.t) :
  lifecycle_invariant d → lifecycle_invariant (DummyUUT.start available d).1.
Proof.
  intros Hd. unfold DummyUUT.start, serial_Serial.
  destruct (DummyUUT.baud_rate d <? 0)%Z; [done|].
  destruct (available (DummyUUT.port_name d)).
  - unfold lifecycle_invariant. simpl. repeat split; try done. eauto.
  - by apply (invariant_lifecycle d).
Qed.

Lemma stop_invariant (d : DummyUUT.t) :
  lifecycle_invariant d → lifecycle_invariant (DummyUUT.stop d).
Proof.
  unfold lifecycle_invariant. rewrite !open_port_iff, !no_port_iff.
  intros (_ & _ & Hn). unfold DummyUUT.stop.
  destruct d as [pn br [s|] rn st cr ct tr]; cbn in *.
  - destruct (is_open s) eqn:E; cbn; rewrite ?E, ?close_closed;
      intuition congruence.
  - intuition congruence.
Qed.

Lemma feed_lifecycle data (d : DummyUUT.t) :
  lifecycle (DummyUUT.feed data d) = lifecycle d.
Proof.
  unfold DummyUUT.feed, lifecycle.
  by destruct (DummyUUT.serial_port d) as [s|] eqn:E; simpl; rewrite ?E.
Qed.

(** C9, as amended.  In every state the generic simulator reaches,
    through construction, [start], [stop], [add_command], the passes of
    its loop and the traffic of its peer, the port is open exactly when
    the state is [ONLINE], which is exactly when the flag of the loop is
    set; and there is no port object exactly as long as no [start] has
    succeeded.  [get_status] reads the fields and changes nothing. *)
Theorem lifecycle_invariant_holds (d : DummyUUT.t) :
  reachable available d →
  lifecycle_invariant d
  ∧ DummyUUT.st_state (DummyUUT.get_status d) = DummyUUT.device_state d
  ∧ DummyUUT.st_running (DummyUUT.get_status d) = DummyUUT.running d.
Proof.
  intros H. split; [|done].
  induction H as [port baud|d _ IH|d _ IH|d command response _ IH|d _ IH|d data _ IH].
  - apply init_invariant.
  - by apply start_invariant.
  - by apply stop_invariant.
  - by apply (invariant_lifecycle d).
  - apply (invariant_lifecycle d); [apply iteration_lifecycle|done].
  - apply (invariant_lifecycle d); [apply feed_lifecycle|done].
Qed.

End Lifecycle.

Lemma lifecycle_invariant_holds_witness :
  let d := DummyUUT.stop (DummyUUT.start always (DummyUUT.init (py "COM5") 115200)).1 in
  lifecycle_invariant d.
Proof.
  intros d.
  apply (lifecycle_invariant_holds always d).
  unfold d. apply reach_stop, reach_start, reach_init.
Defined.

(** C9, as stated, fails after [stop]: the state is [OFFLINE] and the
    port object is still there, closed; [stop] does not reset
    [serial_port] to [None]. *)
Lemma handle_kept_after_stop :
  let d := DummyUUT.stop (DummyUUT.start always (DummyUUT.init (py "COM5") 115200)).1 in
  DummyUUT.device_state d = DummyUUT.OFFLINE
  ∧ DummyUUT.serial_port d = Some (mkSerial false [] [])
  ∧ ¬ Spec.handle_invariant d.
Proof.
  split; [reflexivity|]. split; [reflexivity|].
  unfold Spec.handle_invariant. intros [H _].
  assert (DummyUUT.OFFLINE = DummyUUT.ONLINE) as E by (apply H; discriminate).
  discriminate E.
Qed.

(** * Further properties of the generic simulator *)

Section GenericMore.

Import DummyUUT.

(** X1.  [add_command] followed by the lookup of the same command returns
    the new response, whatever was stored before; and it leaves alone
    the answer to every command none of whose three keys is the one
    added. *)
Theorem add_command_lookup (d : t) (k r : pystr) :
  _get_response (add_command k r d) k = Some r
  ∧ ∀ c, k ≠ c → k ≠ c ++ CRLF → k ≠ Spec.strip_terminators c →
         _get_response (add_command k r d) c = _get_response d c.
Proof.
  split.
  - unfold _get_response. simpl. by rewrite lookup_insert_eq.
  - intros c H1 H2 H3. rewrite !get_response_precedence. simpl.
    by rewrite !lookup_insert_ne.
Qed.

Lemma add_command_lookup_witness :
  let d := add_command (py "PING") (py "PONG" ++ CRLF) (init (py "COM5") 115200) in
  _get_response d (py "PING") = Some (py "PONG" ++ CRLF)
  ∧ _get_response d (py "ATZ") = Some (py "OK" ++ CRLF).
Proof.
  intros d.
  destruct (add_command_lookup (init (py "COM5") 115200) (py "PING") (py "PONG" ++ CRLF))
    as [H1 H2].
  split; [exact H1|].
  unfold d. rewrite (H2 (py "ATZ")).
  - reflexivity.
  - discriminate.
  - discriminate.
  - discriminate.
Defined.

(** X2.  [get_status] counts the keys of the table: 18 after
    construction, one more after [add_command] on a new key, the same
    after [add_command] on a key already there; [add_command] changes
    nothing else of the status. *)
Theorem status_counts_commands (d : t) (k r : pystr) :
  (∀ port baud, st_commands_supported (get_status (init port baud)) = 18%nat)
  ∧ (command_responses d !! k = None →
     st_commands_supported (get_status (add_command k r d))
     = S (st_commands_supported (get_status d)))
  ∧ (is_Some (command_responses d !! k) →
     st_commands_supported (get_status (add_command k r d))
     = st_commands_supported (get_status d))
  ∧ st_state (get_status (add_command k r d)) = st_state (get_status d)
  ∧ st_running (get_status (add_command k r d)) = st_running (get_status d).
Proof.
  split; [intros; vm_compute; reflexivity|].
  unfold get_status, add_command.
  cbn [st_commands_supported st_state st_running command_responses
       device_state running emit set_command_responses].
  split; [|split; [|done]].
  - intros H. by rewrite map_size_insert, H.
  - intros [v H]. by rewrite map_size_insert, H.
Qed.

Lemma status_counts_commands_witness :
  st_commands_supported
    (get_status (add_command (py "PING") (py "PONG") (init (py "COM5") 115200)))
  = 19%nat
  ∧ st_commands_supported
      (get_status (add_command (py "ATZ") (py "PONG") (init (py "COM5") 115200)))
    = 18%nat.
Proof.
  split.
  - destruct (status_counts_commands (init (py "COM5") 115200) (py "PING") (py "PONG"))
      as (H0 & H1 & _).
    rewrite H1; [rewrite H0; reflexivity | reflexivity].
  - destruct (status_counts_commands (init (py "COM5") 115200) (py "ATZ") (py "PONG"))
      as (H0 & _ & H2 & _).
    rewrite H2; [rewrite H0; reflexivity | eexists; reflexivity].
Defined.

Lemma strip_terminators_head (c : N) (cmd : pystr) :
  isspace c = false →
  ∃ rest, Spec.strip_terminators (c :: cmd) = c :: rest.
Proof.
  intros Hc. unfold Spec.strip_terminators. rewrite filter_cons.
  rewrite decide_True; [eauto|].
  unfold Spec.terminator, CR, LF. apply orb_false_iff.
  split; apply N.eqb_neq; intros ->; by vm_compute in Hc.
Qed.

(** X3.  The loop never reaches an entry whose key starts with a
    whitespace character: the command it looks up is stripped, so none
    of the three keys tried starts with whitespace, and deleting such an
    entry changes no answer of the loop. *)
Theorem whitespace_key_unreachable (d : t) (text k : pystr) (c0 : N) (k' : pystr) :
  k = c0 :: k' → isspace c0 = true → strip text ≠ [] →
  _get_response (set_command_responses (delete k (command_responses d)) d) (strip text)
  = _get_response d (strip text).
Proof.
  intros -> Hc0 Hcmd. destruct (strip_spec text) as (pre & post & _ & _ & _ & Hhead & _).
  destruct (strip text) as [|c cmd] eqn:E; [done|].
  pose proof (Hhead c cmd eq_refl) as Hc.
  rewrite !get_response_precedence.
  cbn [command_responses set_command_responses].
  destruct (strip_terminators_head c cmd Hc) as [rest ->].
  rewrite !lookup_delete_ne; [done|..]; intros [= -> _]; congruence.
Qed.

Lemma whitespace_key_unreachable_witness :
  let d := add_command (py " ATZ") (py "NEVER") (init (py "COM5") 115200) in
  _get_response (set_command_responses (delete (py " ATZ") (command_responses d)) d)
    (strip (py " ATZ" ++ CRLF))
  = _get_response d (strip (py " ATZ" ++ CRLF))
  ∧ _get_response d (strip (py " ATZ" ++ CRLF)) = Some (py "OK" ++ CRLF).
Proof.
  intros d. split; [|reflexivity].
  apply (whitespace_key_unreachable d (py " ATZ" ++ CRLF) (py " ATZ") 32 (py "ATZ")).
  - reflexivity.
  - reflexivity.
  - discriminate.
Defined.

End GenericMore.

Section GenericFaults.

Import DummyUUT.

Lemma iteration_no_port (d : t) :
  serial_port d = None →
  iteration d
  = (emit (Sleep 100) (emit (Log ERROR (MsgProcessingError AttributeError)) d),
     Continue).
Proof.
  intros H. unfold iteration, try_except, process_try, bind, port_in_waiting.
  by rewrite H.
Qed.

Lemma iteration_closed_port (d : t) (s : Serial) :
  serial_port d = Some s → is_open s = false →
  iteration d
  = (emit (Sleep 100) (emit (Log ERROR (MsgProcessingError SerialException)) d),
     Continue).
Proof.
  intros H Hs. unfold iteration, try_except, process_try, bind, port_in_waiting.
  rewrite H. unfold in_waiting. by rewrite Hs.
Qed.

Lemma stop_port (d : t) :
  serial_port (stop d) = close <$> serial_port d
  ∧ written (stop d) = written d.
Proof.
  unfold stop, written. destruct d as [pn br [[o i u]|] rn st cr ct tr]; cbn; [|done].
  by destruct o.
Qed.

(** X4.  After [stop()] a pass of the loop that is still in progress
    writes nothing, reads nothing and does not leave the loop by itself:
    the access to the port raises, the exception is logged and the pass
    ends. *)
Theorem pass_after_stop (d : t) :
  let d1 := stop d in
  (iteration d1).2 = Continue
  ∧ serial_port (iteration d1).1 = serial_port d1
  ∧ written (iteration d1).1 = written d
  ∧ trace (iteration d1).1
    = trace d1
      ++ [Log ERROR (MsgProcessingError
                       match serial_port d with
                       | Some _ => SerialException
                       | None => AttributeError
                       end);
          Sleep 100].
Proof.
  intros d1. destruct (stop_port d) as [Hp Hw]. fold d1 in Hp, Hw.
  destruct (serial_port d) as [s|] eqn:E; simpl in Hp.
  - rewrite (iteration_closed_port d1 (close s) Hp (close_closed s)).
    unfold written in *. cbn. rewrite <- app_assoc. by rewrite Hp in *.
  - rewrite (iteration_no_port d1 Hp).
    unfold written in *. cbn. rewrite <- app_assoc. by rewrite Hp in *.
Qed.

End GenericFaults.

(** * Lines answered in order *)

Section InOrder.

Lemma take_line_app (b rest : pybytes) :
  x0a ∉ b → take_line x0a (b ++ x0a :: rest) = (b ++ [x0a], rest).
Proof.
  induction b as [|c b IH]; intros Hb; cbn [app take_line].
  - by destruct (decide (x0a = x0a)).
  - apply not_elem_of_cons in Hb as [Hc Hb].
    destruct (decide (c = x0a)) as [->|_]; [done|]. by rewrite IH.
Qed.

Lemma read_line_app (s : Serial) (b rest : pybytes) :
  in_buf s = b ++ x0a :: rest → x0a ∉ b →
  next_line s = b ++ [x0a] ∧ after_read s = mkSerial true rest (out_buf s).
Proof.
  intros Hs Hb. unfold next_line, after_read.
  by rewrite Hs, take_line_app.
Qed.

Lemma reply_ext (d d' : DummyUUT.t) (c : pystr) :
  DummyUUT.command_responses d' = DummyUUT.command_responses d →
  reply d' c = reply d c.
Proof. intros H. unfold reply, DummyUUT._get_response. by rewrite H. Qed.

Lemma line_output_ext (d d' : DummyUUT.t) (l : pybytes) :
  DummyUUT.command_responses d' = DummyUUT.command_responses d →
  line_output d' l = line_output d l.
Proof.
  intros H. unfold line_output. destruct (decode l) as [text|]; [|done].
  destruct (strip text); [done|]. by rewrite (reply_ext d d').
Qed.

(** One pass of the generic loop on a buffer that starts with a complete
    line. *)
Lemma generic_pass_line (d : DummyUUT.t) (s : Serial) (b rest : pybytes) :
  DummyUUT.serial_port d = Some s → is_open s = true →
  in_buf s = b ++ x0a :: rest → x0a ∉ b →
  pass_result (DummyUUT.iteration d).1
  = (Some (mkSerial true rest (out_buf s ++ line_output d (b ++ [x0a]))),
     DummyUUT.running d, DummyUUT.device_state d, DummyUUT.command_responses d).
Proof.
  intros Hport Hopen Hbuf Hb.
  destruct (read_line_app s b rest Hbuf Hb) as [Hline Hrest].
  assert (in_buf s ≠ []) as Hne by (rewrite Hbuf; by destruct b).
  unfold line_output. rewrite <- Hline.
  destruct (decode (next_line s)) as [text|] eqn:Hdec.
  - destruct (strip text) as [|c cmd] eqn:Hcmd.
    + rewrite (iteration_empty_command d s Hport Hopen text Hne Hdec Hcmd).
      unfold pass_result. cbn. by rewrite Hrest, app_nil_r.
    + destruct (iteration_command d s Hport Hopen text Hne Hdec) as [_ ->].
      { by rewrite Hcmd. }
      rewrite Hcmd, Hrest. cbn [in_buf].
      by destruct (encode (reply d (c :: cmd))); rewrite ?app_nil_r.
  - rewrite (iteration_decode_fault d s Hport Hopen Hne Hdec).
    unfold pass_result. cbn. by rewrite Hrest, app_nil_r.
Qed.

Lemma process_commands_passes (n : nat) (d : DummyUUT.t) :
  DummyUUT.running d = true → DummyUUT._process_commands n d = DummyUUT.passes n d.
Proof.
  revert d. induction n as [|n IH]; intros d Hrun; [done|].
  cbn [DummyUUT._process_commands DummyUUT.passes]. rewrite Hrun.
  apply IH. by rewrite iteration_running.
Qed.

(** X5.  The generic loop answers complete lines one per pass and in
    order: after as many passes as there are lines the input queue is
    empty and the output queue has grown by the outputs of the lines, in
    their order.  A line that is blank, that is not UTF-8 or whose
    response cannot be encoded contributes nothing and does not hold up
    the lines behind it; flag, state and table are unchanged. *)
Theorem generic_lines_in_order (bodies : list pybytes) (d : DummyUUT.t) (s : Serial) :
  Forall (λ b, x0a ∉ b) bodies →
  DummyUUT.serial_port d = Some s →
  is_open s = true →
  in_buf s = unlines bodies →
  pass_result (DummyUUT.passes (length bodies) d)
  = (Some (mkSerial true []
             (out_buf s ++ concat (map (λ b, line_output d (b ++ [x0a])) bodies))),
     DummyUUT.running d, DummyUUT.device_state d, DummyUUT.command_responses d)
  ∧ (DummyUUT.running d = true →
     DummyUUT._process_commands (length bodies) d
     = DummyUUT.passes (length bodies) d).
Proof.
  intros Hb Hport Hopen Hbuf. split; [|apply process_commands_passes].
  revert d s Hport Hopen Hbuf.
  induction Hb as [|b bodies Hb _ IH]; intros d s Hport Hopen Hbuf.
  - cbn. unfold pass_result. rewrite Hport, app_nil_r.
    destruct s as [o i u]. cbn in *. by subst.
  - cbn [length DummyUUT.passes map concat].
    unfold unlines in Hbuf. cbn [map concat] in Hbuf.
    rewrite <- app_assoc in Hbuf. cbn [app] in Hbuf.
    pose proof (generic_pass_line d s b _ Hport Hopen Hbuf Hb) as Hpass.
    pose proof (f_equal (λ x, x.1.1.1) Hpass) as Hp.
    pose proof (f_equal (λ x, x.1.1.2) Hpass) as Hr.
    pose proof (f_equal (λ x, x.1.2) Hpass) as Hs.
    pose proof (f_equal (λ x, x.2) Hpass) as Hc.
    cbn [fst snd pass_result] in Hp, Hr, Hs, Hc. clear Hpass.
    erewrite IH; [|exact Hp|reflexivity|reflexivity].
    assert (map (λ b, line_output (DummyUUT.iteration d).1 (b ++ [x0a])) bodies
            = map (λ b, line_output d (b ++ [x0a])) bodies) as ->.
    { apply map_ext. intros l. by apply line_output_ext. }
    cbn [out_buf]. by rewrite Hr, Hs, Hc, <- app_assoc.
Qed.

Lemma generic_lines_in_order_witness :
  let bodies := [pyb "ATZ"; [xff]; pyb "TEST"] in
  let d := generic_with (unlines bodies) in
  pass_result (DummyUUT.passes (length bodies) d)
  = (Some (mkSerial true []
             ([] ++ concat (map (λ b, line_output d (b ++ [x0a])) bodies))),
     DummyUUT.running d, DummyUUT.device_state d, DummyUUT.command_responses d).
Proof.
  intros bodies d.
  apply (generic_lines_in_order bodies d (mkSerial true (unlines bodies) [])).
  - apply (bool_decide_unpack _). vm_compute. exact I.
  - reflexivity.
  - reflexivity.
  - reflexivity.
Defined.

Example generic_three_lines :
  concat (map (λ b, line_output (generic_with []) (b ++ [x0a]))
            [pyb "ATZ"; [xff]; pyb "TEST"])
  = pyb "OK" ++ [x0d; x0a] ++ pyb "PASS" ++ [x0d; x0a].
Proof. vm_compute. reflexivity. Qed.

End InOrder.

(** * Further properties of the role handlers *)

Section HandlerFrame.

Import MultiPort.

Context {X : Type} (view : t → X) (ser : nat).
Hypothesis view_emit : ∀ e w, view (emit e w) = view w.
Hypothesis view_update :
  ∀ w s', view (set_objects (<[ser := s']> (objects w)) w) = view w.

Lemma preserves_bind {A B} (c : M t A) (k : A → M t B) :
  preserves view c → (∀ a, preserves view (k a)) → preserves view (bind c k).
Proof.
  intros Hc Hk w. unfold bind. specialize (Hc w).
  destruct (c w) as [w' [a|e]]; simpl in *; [|done].
  by rewrite Hk.
Qed.

Lemma preserves_handler_try r port : preserves view (handler_try r port ser).
Proof.
  assert (∀ A (a : A), preserves view (ret a)) as Hret by done.
  assert (∀ p m, preserves view (log p m)) as Hlog by (intros p m w; apply view_emit).
  assert (∀ ms, preserves view (sleep ms)) as Hsleep by (intros ms w; apply view_emit).
  assert (∀ A (f : Serial → result (A * Serial)), preserves view (on_ser ser f)) as Hon.
  { intros A f w. unfold on_ser. destruct (objects w !! ser) as [s|]; [|done].
    destruct (f s) as [[a s']|e]; [apply view_update|done]. }
  unfold handler_try, read_command.
  apply preserves_bind.
  { intros w. unfold ser_in_waiting. by destruct (objects w !! ser). }
  intros n. apply preserves_bind; [|by intros].
  destruct (0 <? n); [|done].
  apply preserves_bind.
  { apply preserves_bind; [apply Hon|]. intros raw.
    apply preserves_bind; [|by intros].
    unfold decode_utf8. by destruct (decode raw). }
  intros command. apply preserves_bind; [apply Hlog|]. intros _.
  apply preserves_bind.
  { intros w. rewrite respond_role_response.
    destruct (Spec.delay r command); [apply view_emit|done]. }
  intros response. apply preserves_bind.
  { unfold encode_utf8. by destruct (encode response). }
  intros data. apply preserves_bind; [apply Hon|]. intros _. apply Hlog.
Qed.

Lemma preserves_iteration r port (w : t) :
  view (iteration r port ser w).1 = view w.
Proof.
  unfold iteration. pose proof (preserves_handler_try r port w) as H.
  destruct (handler_try r port ser w) as [w' [a|e]]; [done|].
  destruct e; simpl in *; by rewrite ?view_emit.
Qed.

End HandlerFrame.

Section HandlerMore.

Import MultiPort.

(** X6.  A pass of a handler touches no port but its own: every other
    [Serial] object of the group is left as it was, no object is created
    or dropped, and flag, threads and connections are unchanged. *)
Theorem handler_touches_own_port_only (r : role) (port : pystr) (ser : nat) (w : t) :
  (∀ j, j ≠ ser → objects (iteration r port ser w).1 !! j = objects w !! j)
  ∧ length (objects (iteration r port ser w).1) = length (objects w)
  ∧ group_frame (iteration r port ser w).1 = group_frame w.
Proof.
  split; [|split].
  - intros j Hj.
    apply (preserves_iteration (λ w, objects w !! j) ser); [done|].
    intros w0 s'. cbn. by rewrite list_lookup_insert_ne.
  - apply (preserves_iteration (λ w, length (objects w)) ser); [done|].
    intros w0 s'. cbn. by rewrite length_insert.
  - apply handler_iteration_frame.
Qed.

Lemma handler_closed_port (r : role) (port : pystr) (ser : nat) (w : t) (s : Serial) :
  objects w !! ser = Some s → is_open s = false →
  iteration r port ser w
  = (emit (LogLine port (MsgError r SerialException)) w, Break).
Proof.
  intros H Hs. unfold iteration, handler_try, bind, ser_in_waiting.
  rewrite H. unfold in_waiting. by rewrite Hs.
Qed.

Lemma stop_registered (w : t) (c : nat) :
  registered w c → objects (stop w) !! c = close <$> objects w !! c.
Proof.
  intros [port Hc]. destruct (stop_fields w) as (_ & _ & _ & ->).
  rewrite close_all_lookup, decide_True; [done|].
  apply (list_elem_of_fmap_2 snd _ (port, c)). by apply elem_of_map_to_list.
Qed.

Lemma stop_unregistered (w : t) (c : nat) :
  ¬ registered w c → objects (stop w) !! c = objects w !! c.
Proof.
  intros Hc. destruct (stop_fields w) as (_ & _ & _ & ->).
  rewrite close_all_lookup, decide_False; [done|].
  intros Hin. apply list_elem_of_fmap in Hin as ([port c'] & -> & Hin).
  apply elem_of_map_to_list in Hin. apply Hc. by exists port.
Qed.

(** X7.  The group [stop()] closes exactly the registered connections:
    an object some port name refers to is closed with its queues kept,
    an object no port name refers to is left as it is, and no object is
    created or dropped. *)
Theorem stop_closes_registered (w : t) (c : nat) :
  (registered w c →
   objects (stop w) !! c = close <$> objects w !! c
   ∧ ∀ s, objects w !! c = Some s →
          ∃ s', objects (stop w) !! c = Some s' ∧ is_open s' = false
                ∧ in_buf s' = in_buf s ∧ out_buf s' = out_buf s)
  ∧ (¬ registered w c → objects (stop w) !! c = objects w !! c)
  ∧ length (objects (stop w)) = length (objects w).
Proof.
  split; [|split].
  - intros Hc. pose proof (stop_registered w c Hc) as H. split; [done|].
    intros s Hs. rewrite Hs in H. exists (close s). split; [done|].
    split; [apply close_closed|]. unfold close. by destruct (is_open s).
  - apply stop_unregistered.
  - destruct (stop_fields w) as (_ & _ & _ & ->).
    generalize (objects w). induction (map_to_list (serial_connections w)) as [|e l IH];
      intros o; [done|]. cbn [foldl]. rewrite IH. unfold close_at.
    destruct (o !! e.2); [apply length_insert|done].
Qed.

Lemma stop_closes_registered_witness :
  let w := handler_with Main (py "COM6") (pyb "MAIN_INIT") in
  objects (stop w) !! 0%nat = Some (mkSerial false (pyb "MAIN_INIT") []).
Proof.
  intros w. destruct (stop_closes_registered w 0) as [H _].
  destruct H as [H _].
  - exists (py "COM6"). reflexivity.
  - rewrite H. reflexivity.
Defined.

(** X8.  A pass of a handler that is in progress when the group
    [stop()] closes its port writes nothing and leaves the loop: the
    access to the closed port raises, which the handler prints before it
    breaks. *)
Theorem handler_pass_after_stop (r : role) (port : pystr) (ser : nat) (w : t) (s : Serial) :
  registered w ser → objects w !! ser = Some s →
  (iteration r port ser (stop w)).2 = Break
  ∧ written ser (iteration r port ser (stop w)).1 = written ser w
  ∧ trace (iteration r port ser (stop w)).1
    = trace (stop w) ++ [LogLine port (MsgError r SerialException)]
  ∧ ∀ fuel, handler_loop (S fuel) r port ser (stop w) = Some (stop w).
Proof.
  intros Hreg Hs. pose proof (stop_registered w ser Hreg) as Hc.
  rewrite Hs in Hc. simpl in Hc.
  rewrite (handler_closed_port r port ser (stop w) (close s) Hc (close_closed s)).
  split; [done|]. split; [|split; [done|]].
  - unfold written. cbn. rewrite Hc, Hs. unfold close. by destruct (is_open s).
  - intros fuel. cbn [handler_loop].
    by destruct (stop_fields w) as (-> & _).
Qed.

Lemma handler_pass_after_stop_witness :
  let w := handler_with Main (py "COM6") (pyb "MAIN_INIT") in
  (iteration Main (py "COM6") 0 (stop w)).2 = Break
  ∧ written 0 (iteration Main (py "COM6") 0 (stop w)).1 = [].
Proof.
  intros w.
  destruct (handler_pass_after_stop Main (py "COM6") 0 w
              (mkSerial true (pyb "MAIN_INIT") []))
    as (H1 & H2 & _).
  - exists (py "COM6"). reflexivity.
  - reflexivity.
  - exact (conj H1 H2).
Defined.

End HandlerMore.

(** * The index of a secondary port *)

Section PortIndex.

Import MultiPort.

Lemma string_of_uint_digits (d : Decimal.uint) :
  Forall (λ c, is_digit c = true) (py (NilEmpty.string_of_uint d)).
Proof.
  induction d; simpl; try constructor; try done; by vm_compute.
Qed.

Lemma str_of_int_digits (n : N) : Forall (λ c, is_digit c = true) (str_of_int n).
Proof. apply string_of_uint_digits. Qed.

Lemma py_inj (a b : string) : py a = py b → a = b.
Proof.
  revert b. induction a as [|x a IH]; intros [|y b]; try done.
  unfold py. simpl. intros [= Hxy Hab].
  f_equal; [|by apply IH].
  rewrite <- (ascii_N_embedding x), <- (ascii_N_embedding y). by rewrite Hxy.
Qed.

Lemma str_of_int_inj (m n : N) : str_of_int m = str_of_int n → m = n.
Proof.
  unfold str_of_int. intros H%py_inj.
  assert (N.to_uint m = N.to_uint n) as E.
  { pose proof (NilEmpty.usu (N.to_uint m)) as Hm.
    pose proof (NilEmpty.usu (N.to_uint n)) as Hn.
    rewrite H in Hm. rewrite Hm in Hn. by injection Hn. }
  by apply DecimalN.Unsigned.to_uint_inj.
Qed.

(** Two texts made of digits, each followed by an underscore: when one
    text starts with the other the digits are the same. *)
Lemma digits_prefix (a b x y : pystr) :
  Forall (λ c, is_digit c = true) a → Forall (λ c, is_digit c = true) b →
  a ++ 95 :: x = (b ++ [95]) ++ y → a = b.
Proof.
  intros Ha. revert b. induction Ha as [|c a Hc Ha IH]; intros b Hb H.
  - destruct Hb as [|c b Hc Hb]; [done|]. simpl in H. injection H as <- _.
    by vm_compute in Hc.
  - destruct Hb as [|c' b Hc' Hb]; simpl in H.
    + injection H as -> _. by vm_compute in Hc.
    + injection H as -> H. f_equal. by apply IH.
Qed.

Lemma PORT_prefix (m n : N) (rest : pystr) :
  startswith (PORT m ++ py "_" ++ rest) (PORT n ++ py "_") = true → m = n.
Proof.
  rewrite startswith_spec. intros [y H]. unfold PORT in H.
  rewrite <- !app_assoc in H. apply app_inv_head in H.
  apply str_of_int_inj.
  apply (digits_prefix _ _ rest y); [apply str_of_int_digits..|].
  by rewrite <- app_assoc.
Qed.

(** X9.  A secondary handler recognizes the commands of its own index
    only: to the handler of port [n], a command made of the tag of
    another port [m], an underscore and anything is neither a command
    nor a command of its role, and gets the invalid-command response of
    port [n]. *)
Theorem other_port_command_rejected (m n : N) (rest : pystr) (w : t) :
  m ≠ n →
  respond (Port n) (PORT m ++ py "_" ++ rest) w
  = (w, Ok (PORT n ++ py "_ERROR:INVALID_COMMAND" ++ CRLF)).
Proof.
  intros Hmn.
  assert (startswith (PORT m ++ py "_" ++ rest) (PORT n ++ py "_") = false) as Hpre.
  { destruct (startswith _ _) eqn:E; [|done]. by apply PORT_prefix in E. }
  assert (∀ suffix, PORT m ++ py "_" ++ rest ≠ PORT n ++ py "_" ++ suffix) as Hne.
  { intros suffix H. apply Hmn, (PORT_prefix m n rest).
    rewrite H. apply startswith_spec. exists suffix. by rewrite <- app_assoc. }
  unfold respond, port_response.
  rewrite !decide_False by apply (Hne (py _)). by rewrite Hpre.
Qed.

Lemma other_port_command_rejected_witness :
  let w := init (py "COM6") [py "COM11"; py "COM12"; py "COM13"] 9600 in
  respond (Port 1) (py "PORT2_ENABLE") w
  = (w, Ok (py "PORT1_ERROR:INVALID_COMMAND" ++ CRLF))
  ∧ respond (Port 1) (py "PORT10_ENABLE") w
    = (w, Ok (py "PORT1_ERROR:INVALID_COMMAND" ++ CRLF)).
Proof.
  intros w. split.
  - apply (other_port_command_rejected 2 1 (py "ENABLE") w). discriminate.
  - apply (other_port_command_rejected 10 1 (py "ENABLE") w). discriminate.
Defined.

End PortIndex.

(** * What is written can be read back *)

Section RoundTrip.

Lemma byte_val_mk_byte (n : N) : n < 256 → byte_val (mk_byte n) = n.
Proof.
  intros Hn. unfold byte_val, mk_byte.
  destruct (Byte.of_N n) as [b|] eqn:E.
  - by apply Byte.to_of_N.
  - apply Byte.of_N_None_iff in E. lia.
Qed.

Lemma split64 (n : N) :
  ∃ q r, n = 64 * q + r ∧ r < 64 ∧ n / 64 = q ∧ n mod 64 = r.
Proof.
  exists (n / 64), (n mod 64). repeat split.
  - apply N.Div0.div_mod.
  - by apply N.mod_lt.
Qed.

Ltac settle :=
  repeat match goal with
  | |- context [?a <? ?b] =>
      first [ replace (a <? b) with true by (symmetry; apply N.ltb_lt; lia)
            | replace (a <? b) with false by (symmetry; apply N.ltb_ge; lia) ]
  | |- context [?a <=? ?b] =>
      first [ replace (a <=? b) with true by (symmetry; apply N.leb_le; lia)
            | replace (a <=? b) with false by (symmetry; apply N.leb_gt; lia) ]
  end; cbn [andb].

Lemma decode_encode_char (c : N) (b rest : pybytes) :
  encode_char c = Some b → decode (b ++ rest) = cons c <$> decode rest.
Proof.
  unfold encode_char.
  replace (c / 4096) with (c / 64 / 64) by (by rewrite N.Div0.div_div).
  replace (c / 262144) with (c / 64 / 64 / 64) by (by rewrite !N.Div0.div_div).
  destruct (split64 c) as (q0 & r0 & Hc & Hr0 & D0 & M0). rewrite ?D0, ?M0.
  destruct (split64 q0) as (q1 & r1 & Hq0 & Hr1 & D1 & M1). rewrite ?D1, ?M1.
  destruct (split64 q1) as (q2 & r2 & Hq1 & Hr2 & D2 & M2). rewrite ?D2, ?M2.
  clear D0 M0 D1 M1 D2 M2.
  destruct (c <? 0x80) eqn:E1.
  { intros [= <-]. apply N.ltb_lt in E1. cbn [app decode]. cbv zeta.
    rewrite byte_val_mk_byte by lia. settle. done. }
  apply N.ltb_ge in E1.
  destruct (c <? 0x800) eqn:E2.
  { intros [= <-]. apply N.ltb_lt in E2. cbn [app decode]. cbv zeta.
    rewrite !byte_val_mk_byte by lia.
    unfold cont, in_range. settle. do 2 f_equal. lia. }
  apply N.ltb_ge in E2.
  destruct (c <? 0x10000) eqn:E3.
  { destruct (scalar c) eqn:Hs; [|done]. intros [= <-].
    apply N.ltb_lt in E3.
    assert (c < 0xD800 ∨ 0xDFFF < c) as Hsc.
    { unfold scalar in Hs. apply orb_true_iff in Hs as [H|H].
      - left. by apply N.ltb_lt.
      - right. apply andb_true_iff in H as [H _]. by apply N.ltb_lt. }
    cbn [app decode]. cbv zeta.
    rewrite !byte_val_mk_byte by lia.
    unfold cont, in_range.
    destruct (N.eqb_spec (0xE0 + q1) 0xE0), (N.eqb_spec (0xE0 + q1) 0xED);
      settle; do 2 f_equal; lia. }
  apply N.ltb_ge in E3.
  destruct (c <? 0x110000) eqn:E4; [|done].
  intros [= <-]. apply N.ltb_lt in E4. cbn [app decode]. cbv zeta.
  rewrite !byte_val_mk_byte by lia.
  unfold cont, in_range.
  destruct (N.eqb_spec (0xF0 + q2) 0xF0), (N.eqb_spec (0xF0 + q2) 0xF4);
    settle; do 2 f_equal; lia.
Qed.

(** Decoding the encoding of a text gives the text back. *)
Lemma decode_encode (s : pystr) (data : pybytes) :
  encode s = Some data → decode data = Some s.
Proof.
  revert data. induction s as [|c s IH]; intros data; simpl.
  - by intros [= <-].
  - destruct (encode_char c) as [b|] eqn:Hc; [|done].
    destruct (encode s) as [bs|]; [|done]. intros [= <-].
    by rewrite (decode_encode_char c b bs Hc), (IH bs).
Qed.

End RoundTrip.

(** * More on the passes of the role handlers *)

Section HandlerLines.

Import MultiPort.

Lemma generic_written_command (d : DummyUUT.t) (s : Serial) (text : pystr) :
  DummyUUT.serial_port d = Some s → is_open s = true → in_buf s ≠ [] →
  decode (next_line s) = Some text → strip text ≠ [] →
  DummyUUT.written (DummyUUT.iteration d).1
  = out_buf s ++ match encode (reply d (strip text)) with
                 | Some data => data
                 | None => []
                 end.
Proof.
  intros Hport Hopen Hbuf Hdec Hcmd.
  destruct (iteration_command d s Hport Hopen text Hbuf Hdec Hcmd) as [_ Hres].
  pose proof (f_equal (λ x, x.1.1.1) Hres) as Hp. cbn [fst pass_result] in Hp.
  unfold DummyUUT.written. rewrite Hp.
  destruct (encode (reply d (strip text))); [done|]. by rewrite app_nil_r.
Qed.

(** X10.  What a simulator writes can be read back: the bytes a role
    handler writes for a line decode, as UTF-8, to the response of its
    role, and the bytes the generic simulator writes for a command
    decode to the stored response or to the error text. *)
Theorem responses_decode_back :
  (∀ (r : role) (port : pystr) (ser : nat) (w : t) (s : Serial) (text : pystr),
     objects w !! ser = Some s → is_open s = true → in_buf s ≠ [] →
     decode (next_line s) = Some text →
     ∃ data, written ser (iteration r port ser w).1 = out_buf s ++ data
             ∧ decode data = Some (Spec.role_response r (strip text)))
  ∧ (∀ (d : DummyUUT.t) (s : Serial) (text : pystr) (data : pybytes),
       DummyUUT.serial_port d = Some s → is_open s = true → in_buf s ≠ [] →
       decode (next_line s) = Some text → strip text ≠ [] →
       encode (reply d (strip text)) = Some data →
       DummyUUT.written (DummyUUT.iteration d).1 = out_buf s ++ data
       ∧ decode data = Some (reply d (strip text))).
Proof.
  split.
  - intros r port ser w s text Hobj Hopen Hbuf Hdec.
    destruct (handler_command r port ser w s Hobj Hopen text Hbuf Hdec)
      as (data & Hdata & _ & Hobjs & _).
    exists data. split; [|by apply decode_encode].
    by rewrite (written_insert ser w _ s _ Hobj Hobjs).
  - intros d s text data Hport Hopen Hbuf Hdec Hcmd Hdata.
    split; [|by apply decode_encode].
    by rewrite (generic_written_command d s text Hport Hopen Hbuf Hdec Hcmd), Hdata.
Qed.

Lemma responses_decode_back_witness :
  ∃ data,
    written 0 (iteration Main (py "COM6") 0
                 (handler_with Main (py "COM6") (pyb "MAIN_INIT" ++ [x0a]))).1
    = [] ++ data
    ∧ decode data = Some (Spec.role_response Main (strip (py "MAIN_INIT" ++ [LF]))).
Proof.
  destruct responses_decode_back as [R _].
  apply (R Main (py "COM6") 0%nat
           (handler_with Main (py "COM6") (pyb "MAIN_INIT" ++ [x0a]))
           (mkSerial true (pyb "MAIN_INIT" ++ [x0a]) [])
           (py "MAIN_INIT" ++ [LF])).
  - reflexivity.
  - reflexivity.
  - discriminate.
  - reflexivity.
Defined.

(** One pass of a handler on a buffer that starts with a complete line
    that decodes. *)
Lemma handler_pass_line (r : role) (port : pystr) (ser : nat) (w : t)
    (s : Serial) (b rest : pybytes) :
  objects w !! ser = Some s → is_open s = true →
  in_buf s = b ++ x0a :: rest → x0a ∉ b → is_Some (decode (b ++ [x0a])) →
  (iteration r port ser w).2 = Continue
  ∧ objects (iteration r port ser w).1
    = <[ser := mkSerial true rest (out_buf s ++ handler_output r (b ++ [x0a]))]>
        (objects w)
  ∧ running (iteration r port ser w).1 = running w.
Proof.
  intros Hobj Hopen Hbuf Hb [text Hdec].
  destruct (read_line_app s b rest Hbuf Hb) as [Hline Hrest].
  assert (in_buf s ≠ []) as Hne by (rewrite Hbuf; by destruct b).
  rewrite <- Hline in Hdec.
  destruct (handler_command r port ser w s Hobj Hopen text Hne Hdec)
    as (data & Hdata & Hc & Hobjs & Hrun & _).
  split; [done|]. split; [|done].
  rewrite Hobjs, Hrest. unfold handler_output.
  by rewrite <- Hline, Hdec, Hdata.
Qed.

(** X11.  A role handler answers complete lines one per pass and in
    order: when every line decodes, after as many passes as there are
    lines its input queue is empty, its output queue has grown by the
    responses to the lines in their order, and every one of these passes
    has gone on with the loop. *)
Theorem handler_lines_in_order (r : role) (port : pystr) (ser : nat)
    (bodies : list pybytes) (w : t) (s : Serial) :
  Forall (λ b, (x0a ∉ b) ∧ is_Some (decode (b ++ [x0a]))) bodies →
  objects w !! ser = Some s →
  is_open s = true →
  in_buf s = unlines bodies →
  objects (passes (length bodies) r port ser w)
  = <[ser := mkSerial true []
               (out_buf s ++ concat (map (λ b, handler_output r (b ++ [x0a])) bodies))]>
      (objects w)
  ∧ running (passes (length bodies) r port ser w) = running w
  ∧ ∀ k, (k < length bodies)%nat →
         (iteration r port ser (passes k r port ser w)).2 = Continue.
Proof.
  intros Hb. revert w s.
  induction Hb as [|b bodies [Hb Hdec] _ IH]; intros w s Hobj Hopen Hbuf.
  - cbn. rewrite app_nil_r. split; [|split; [done|intros k; lia]].
    destruct s as [o i u]. cbn in *. subst. by rewrite list_insert_id.
  - cbn [length passes map concat].
    unfold unlines in Hbuf. cbn [map concat] in Hbuf.
    rewrite <- app_assoc in Hbuf. cbn [app] in Hbuf.
    destruct (handler_pass_line r port ser w s b _ Hobj Hopen Hbuf Hb Hdec)
      as (Hc & Hobjs & Hrun).
    pose proof (lookup_lt_Some _ _ _ Hobj) as Hlt.
    edestruct (IH (iteration r port ser w).1) as (I1 & I2 & I3).
    { rewrite Hobjs. by apply list_lookup_insert_eq. }
    { reflexivity. }
    { reflexivity. }
    split; [|split].
    + rewrite I1, Hobjs, list_insert_insert_eq. cbn [out_buf].
      by rewrite <- app_assoc.
    + by rewrite I2.
    + intros [|k] Hk; [done|]. cbn [passes]. apply I3. lia.
Qed.

Lemma handler_lines_in_order_witness :
  let bodies := [pyb "PORT2_ENABLE"; pyb "PORT2_TEST"] in
  let w := handler_with (Port 2) (py "COM12") (unlines bodies) in
  objects (passes (length bodies) (Port 2) (py "COM12") 0 w)
  = <[0%nat := mkSerial true []
                 ([] ++ concat (map (λ b, handler_output (Port 2) (b ++ [x0a])) bodies))]>
      (objects w).
Proof.
  intros bodies w.
  apply (handler_lines_in_order (Port 2) (py "COM12") 0 bodies w
           (mkSerial true (unlines bodies) [])).
  - repeat (apply Forall_cons; split; [split|]); try apply Forall_nil_2.
    + apply (bool_decide_unpack _). vm_compute. exact I.
    + eexists. vm_compute. reflexivity.
    + apply (bool_decide_unpack _). vm_compute. exact I.
    + eexists. vm_compute. reflexivity.
  - reflexivity.
  - reflexivity.
  - reflexivity.
Defined.

Example port2_two_lines :
  concat (map (λ b, handler_output (Port 2) (b ++ [x0a]))
            [pyb "PORT2_ENABLE"; pyb "PORT2_TEST"])
  = pyb "PORT2:ENABLED" ++ [x0d; x0a] ++ pyb "PORT2:TEST_OK" ++ [x0d; x0a].
Proof. vm_compute. reflexivity. Qed.

Lemma launch_all l (w : t) :
  let w' := foldl (λ w '(i, port), launch (mk_thread (Port i) port) w) w l in
  threads w' = threads w ++ map (λ e, mk_thread (Port e.1) e.2) l
  ∧ running w' = running w
  ∧ objects w' = objects w
  ∧ serial_connections w' = serial_connections w.
Proof.
  revert w. induction l as [|[i port] l IH]; intros w.
  - cbn. by rewrite app_nil_r.
  - cbn [foldl map]. destruct (IH (launch (mk_thread (Port i) port) w))
      as (-> & -> & -> & ->).
    cbn. by rewrite <- app_assoc.
Qed.

Lemma enumerate_lookup ports start (k : nat) :
  enumerate start ports !! k = (λ p, (start + N.of_nat k, p)) <$> ports !! k.
Proof.
  revert start k. induction ports as [|p ports IH]; intros start [|k]; cbn; try done.
  - by rewrite N.add_0_r.
  - rewrite IH. destruct (ports !! k); [|done]. cbn. do 2 f_equal. lia.
Qed.

(** X12.  The group [start()] sets the flag and launches one thread for
    the main port followed by one thread per secondary port, in the
    order of the list and numbered from 1, however many secondary ports
    there are; it opens no port and registers no connection itself. *)
Theorem start_launches_threads (w : t) :
  running (start w) = true
  ∧ threads (start w)
    = threads w ++ mk_thread Main (main_port w)
        :: map (λ e, mk_thread (Port e.1) e.2) (enumerate 1 (secondary_ports w))
  ∧ length (threads (start w))
    = (length (threads w) + 1 + length (secondary_ports w))%nat
  ∧ (∀ k p, secondary_ports w !! k = Some p →
       threads (start w) !! (length (threads w) + 1 + k)%nat
       = Some (mk_thread (Port (N.of_nat k + 1)) p))
  ∧ objects (start w) = objects w
  ∧ serial_connections (start w) = serial_connections w.
Proof.
  assert (threads (start w)
          = threads w ++ mk_thread Main (main_port w)
              :: map (λ e, mk_thread (Port e.1) e.2) (enumerate 1 (secondary_ports w))
          ∧ running (start w) = true ∧ objects (start w) = objects w
          ∧ serial_connections (start w) = serial_connections w)
    as (Ht & Hr & Ho & Hc).
  { unfold start. cbn [threads running objects serial_connections emit].
    match goal with
    | |- context [foldl ?f ?w0 ?l] =>
        destruct (launch_all l w0) as (-> & -> & -> & ->)
    end.
    cbn. by rewrite <- app_assoc. }
  split; [done|]. split; [done|]. split; [|split; [|done]].
  - rewrite Ht, length_app. cbn. rewrite length_map.
    assert (∀ l st, length (enumerate st l) = length l) as ->; [|lia].
    induction l as [|x l IH]; intros st; cbn; by rewrite ?IH.
  - intros k p Hk. rewrite Ht.
    rewrite lookup_app_r by lia.
    replace (length (threads w) + 1 + k - length (threads w))%nat with (S k) by lia.
    change ((?x :: ?l) !! S k) with (l !! k).
    change (map ?f ?l) with (f <$> l).
    rewrite list_lookup_fmap, enumerate_lookup, Hk. cbn.
    do 3 f_equal. lia.
Qed.

Lemma start_launches_threads_witness :
  threads (start (init (py "COM6") [py "COM11"; py "COM12"; py "COM13"] 9600))
    !! 2%nat
  = Some (mk_thread (Port 2) (py "COM12")).
Proof.
  destruct (start_launches_threads
              (init (py "COM6") [py "COM11"; py "COM12"; py "COM13"] 9600))
    as (_ & _ & _ & H & _).
  apply (H 1%nat (py "COM12")). reflexivity.
Defined.

End HandlerLines.

(** * Handlers that cannot open their port, and the two [main]s *)

Section OpenFailure.

Import MultiPort.

Lemma handler_open_fails (available : pystr → bool) (r : role) (port : pystr)
    (w : t) (e : exn) :
  serial_Serial available port (baudrate w) = Raise e →
  handler_open available r port w
  = (emit (LogLine port (MsgOpening r port (baudrate w))) w, Raise e).
Proof.
  intros H. unfold handler_open, bind, gets, log, modify, new_serial.
  cbn [baudrate emit]. by rewrite H.
Qed.

(** X13.  A handler whose port cannot be opened, because the port is not
    available or because the baud rate is not valid, ends at once,
    whatever the flag: it creates no [Serial] object, registers no
    connection and leaves the flag and the threads alone.  Its [finally]
    clause still closes whatever is registered under its port name:
    nothing when no handler has registered that name, the connection of
    the handler that has registered it otherwise. *)
Theorem handler_open_failure (available : pystr → bool) (fuel : nat) (r : role)
    (port : pystr) (w : t) (e : exn) :
  serial_Serial available port (baudrate w) = Raise e →
  ∃ w', handler available fuel r port w = Some w'
        ∧ group_frame w' = group_frame w
        ∧ length (objects w') = length (objects w)
        ∧ trace w' = trace w ++ [LogLine port (MsgOpening r port (baudrate w));
                                 LogLine port (MsgOpenFailed r e);
                                 LogLine port (MsgClosed r)]
        ∧ (serial_connections w !! port = None → objects w' = objects w)
        ∧ (∀ c s, serial_connections w !! port = Some c → objects w !! c = Some s →
             objects w' = <[c := close s]> (objects w)).
Proof.
  intros H. unfold handler. rewrite (handler_open_fails available r port w e H).
  eexists. split; [reflexivity|].
  unfold handler_finally. cbn [serial_connections objects emit].
  destruct (serial_connections w !! port) as [c|] eqn:Hc.
  - destruct (objects w !! c) as [s|] eqn:Hs; cbn.
    + rewrite length_insert, <- !app_assoc. repeat split; try done.
      intros c' s' E1 E2. by simplify_eq.
    + rewrite <- !app_assoc. repeat split; try done.
      intros c' s' E1 E2. by simplify_eq.
  - cbn. rewrite <- !app_assoc. repeat split; done.
Qed.

Lemma handler_open_failure_witness :
  let w := handler_with (Port 1) (py "COM11") [] in
  ∃ w', handler (λ _, false) 5 (Port 2) (py "COM11") w = Some w'
        ∧ objects w' = [mkSerial false [] []].
Proof.
  intros w.
  destruct (handler_open_failure (λ _, false) 5 (Port 2) (py "COM11") w
              SerialException eq_refl)
    as (w' & H1 & _ & _ & _ & _ & H2).
  exists w'. split; [exact H1|].
  apply (H2 0%nat (mkSerial true [] [])); reflexivity.
Defined.

Lemma parse_ports_commas (ports : pystr) :
  length (parse_ports ports) = 3%nat ↔ length (filter (λ c, c = 44) ports) = 2%nat.
Proof. rewrite parse_ports_length. lia. Qed.

(** X14.  [main] of the group looks at the number of entries only, which
    is the number of commas plus one: it constructs and starts the group
    exactly when the argument holds two commas, with the trimmed entries
    as secondary ports, even empty ones, and exits with status 1
    otherwise. *)
Theorem main_counts_commas (arg_main arg_ports : pystr) (arg_baudrate : Z) :
  let p := main arg_main arg_ports arg_baudrate in
  (length (filter (λ c, c = 44) arg_ports) = 2%nat →
   exit_status p = None
   ∧ uut p = Some (start (init arg_main (map strip (split 44 arg_ports)) arg_baudrate)))
  ∧ (length (filter (λ c, c = 44) arg_ports) ≠ 2%nat →
     exit_status p = Some 1%Z ∧ uut p = None).
Proof.
  intros p. unfold p, main. split; intros H.
  - rewrite decide_False; [done|]. intros Hn. apply Hn. by apply parse_ports_commas.
  - rewrite decide_True; [done|]. by rewrite parse_ports_commas.
Qed.

Lemma main_counts_commas_witness :
  let p := main (py "COM6") (py " COM11 ,,") 9600 in
  exit_status p = None
  ∧ secondary_ports <$> uut p = Some [py "COM11"; []; []].
Proof.
  intros p.
  destruct (main_counts_commas (py "COM6") (py " COM11 ,,") 9600) as [H _].
  destruct H as [H1 H2]; [reflexivity|].
  split; [exact H1|]. unfold p. rewrite H2. reflexivity.
Defined.

End OpenFailure.

Section GenericMain.

Import DummyUUT.



Example generic_main_negative_baud :
  run_ending (main always 1000000 (py "COM5") (-1) 0 false) = Propagated ValueError.
Proof. reflexivity. Qed.

Example generic_main_huge_duration :
  run_ending (main always 1000000 (py "COM5") 115200 (10 ^ 20) false)
  = Propagated OverflowError.
Proof. reflexivity. Qed.

End GenericMain.

Section PortList.

Import MultiPort.

Lemma split_no_sep sep (s : pystr) : Forall (λ f, Forall (λ c, c ≠ sep) f) (split sep s).
Proof.
  induction s as [|c s IH]; cbn [split].
  - by repeat constructor.
  - destruct (N.eqb_spec c sep) as [->|Hc].
    + by constructor.
    + destruct (split sep s) as [|f fs]; [by repeat constructor|].
      apply Forall_cons in IH as [Hf Hfs]. constructor; [by constructor|done].
Qed.

(** X16.  The secondary ports [main] hands to the group are the fields
    of the argument between its commas, trimmed: there is one more than
    there are commas, none contains a comma, and none starts or ends with
    a whitespace character. *)
Theorem parse_ports_entries (ports : pystr) :
  length (parse_ports ports) = S (length (filter (λ c, c = 44) ports))
  ∧ Forall (λ e, Forall (λ c, c ≠ 44) e
                 ∧ (∀ c rest, e = c :: rest → isspace c = false)
                 ∧ (∀ rest c, e = rest ++ [c] → isspace c = false))
           (parse_ports ports).
Proof.
  split; [apply parse_ports_length|].
  unfold parse_ports. apply Forall_map.
  eapply Forall_impl; [apply split_no_sep|]. intros f Hf. cbn.
  split; [by apply strip_sublist|].
  destruct (strip_spec f) as (pre & post & _ & _ & _ & H1 & H2). by split.
Qed.

End PortList.
